(** * mongodb-controller: the query compiler of [lib/utils/query.ts] and
    [lib/controller/default.ts], embedded in Rocq.

    The development has two parts.  The first part holds the embedding:
    the pieces of the JavaScript run time the compiler relies on (strings,
    number conversion, JSON, dates), the helpers of the external packages
    it imports, and then the functions of the two source files, under
    their own names.  The second part holds the properties.

    Conventions of the embedding.
    - A JavaScript string is a [string]; its characters are 8-bit code
      units, so text outside Latin-1 is out of the model.
    - Exceptions are results in the [result] type; the two loops over the
      filter text and the recursion of [normalize] take a [fuel] argument
      and answer [Err OutOfFuel] when it is exhausted. *)

From Stdlib Require Import String Ascii List ZArith Lia Bool.
From Stdlib Require Import DecimalString DecimalN DecimalPos.
Import ListNotations.

Local Open Scope string_scope.
Local Open Scope Z_scope.
Local Set Warnings "-register-all".

(* ================================================================== *)
(** * Part I: the embedding *)
(* ================================================================== *)

(** ** Tactics *)

(** A fact on a character that a test singles out, by the 256 cases. *)
Ltac ascii_cases c :=
  destruct c as [[] [] [] [] [] [] [] []]; try discriminate;
  repeat split; reflexivity.

(** ** Results of computations that may throw *)

Inductive error : Type :=
| InvalidOperator   (* [new Error('invalid operator found')] *)
| SyntaxError       (* thrown by [JSON.parse] *)
| TypeError         (* thrown by the run time on an ill-typed operation *)
| OutOfFuel.        (* the model ran out of fuel: no answer *)

Inductive result (A : Type) : Type :=
| Ok (a : A)
| Err (e : error).

Arguments Ok {A} a.
Arguments Err {A} e.

Definition bind {A B : Type} (m : result A) (k : A -> result B) : result B :=
  match m with
  | Ok a => k a
  | Err e => Err e
  end.

Notation "x <- m ;; k" := (bind m (fun x => k))
  (at level 61, m at next level, right associativity).

(** [mapM f l] runs [f] on the elements of [l] from left to right and stops
    at the first exception, as [Array.prototype.map] and [forEach] do. *)
Fixpoint mapM {A B : Type} (f : A -> result B) (l : list A) : result (list B) :=
  match l with
  | [] => Ok []
  | a :: l' => b <- f a ;; bs <- mapM f l' ;; Ok (b :: bs)
  end.

(** ** Strings of the JavaScript run time *)

Module JsString.

Definition len (s : string) : Z := Z.of_nat (String.length s).

Fixpoint drop (n : nat) (s : string) : string :=
  match n, s with
  | O, _ => s
  | S _, EmptyString => EmptyString
  | S n', String _ s' => drop n' s'
  end.

Fixpoint take (n : nat) (s : string) : string :=
  match n, s with
  | O, _ => EmptyString
  | S _, EmptyString => EmptyString
  | S n', String c s' => String c (take n' s')
  end.

Fixpoint rev_append (s acc : string) : string :=
  match s with
  | EmptyString => acc
  | String c s' => rev_append s' (String c acc)
  end.

Definition rev (s : string) : string := rev_append s EmptyString.

(** [s.startsWith(p)] *)
Definition startsWith (p s : string) : bool := String.prefix p s.

(** [s.endsWith(p)] *)
Definition endsWith (p s : string) : bool := String.prefix (rev p) (rev s).

(** [s.includes(p)] *)
Fixpoint includes (p s : string) : bool :=
  String.prefix p s ||
  match s with
  | EmptyString => false
  | String _ s' => includes p s'
  end.

(** [s.includes(c)] for a one-character string [c] *)
Definition includesChar (s : string) (c : ascii) : bool :=
  includes (String c EmptyString) s.

(** The lower case of a Latin-1 code unit: [A]-[Z] and the accented
    capitals, the multiplication sign excepted. *)
Definition lowerChar (c : ascii) : ascii :=
  let n := nat_of_ascii c in
  if ((Nat.leb 65 n && Nat.leb n 90)
      || (Nat.leb 192 n && Nat.leb n 222 && negb (Nat.eqb n 215)))%bool
  then ascii_of_nat (n + 32) else c.

(** [s.toLowerCase()] *)
Fixpoint toLowerCase (s : string) : string :=
  match s with
  | EmptyString => EmptyString
  | String c s' => String (lowerChar c) (toLowerCase s')
  end.

(** White space and line terminators of the 8-bit range:
    TAB, LF, VT, FF, CR, SPACE and the no-break space. *)
Definition isWhiteSpace (c : ascii) : bool :=
  let n := nat_of_ascii c in
  ((Nat.leb 9 n && Nat.leb n 13) || Nat.eqb n 32 || Nat.eqb n 160)%bool.

Fixpoint trimStart (s : string) : string :=
  match s with
  | EmptyString => EmptyString
  | String c s' => if isWhiteSpace c then trimStart s' else s
  end.

Definition trimEnd (s : string) : string := rev (trimStart (rev s)).

(** [s.trim()] *)
Definition trim (s : string) : string := trimEnd (trimStart s).

(** [s.split(c)] for a one-character separator: the pieces between the
    separators, empty pieces included; [cur] is the piece being read. *)
Fixpoint splitAux (sep : ascii) (s cur : string) : list string :=
  match s with
  | EmptyString => [rev cur]
  | String c s' =>
      if Ascii.eqb c sep then rev cur :: splitAux sep s' EmptyString
      else splitAux sep s' (String c cur)
  end.

Definition split (sep : ascii) (s : string) : list string :=
  splitAux sep s EmptyString.

(** [s.replace(p, r)] for a string pattern [p] and a replacement [r]
    without [$] patterns: the first occurrence of [p] is replaced. *)
Fixpoint replace (p r s : string) : string :=
  if String.prefix p s then r ++ drop (String.length p) s
  else match s with
       | EmptyString => EmptyString
       | String c s' => String c (replace p r s')
       end.

End JsString.

(** ** Numbers of the JavaScript run time

    A number that a numeric literal denotes is kept exactly, in the
    form the run time prints it from: a sign, the significant decimal
    digits [d1 ... dk] (no leading and no trailing zero) and the
    position [n] of the decimal point, for the value
    [0.d1...dk * 10^n].  Zero has no digits.  The rounding of a literal
    to the nearest binary64 value, with its overflow to an infinity, and
    the sign of zero are not modelled. *)

Module JsNumber.
Import JsString.

Inductive number : Type :=
| NaN
| Infinity (neg : bool)
| Finite (neg : bool) (digits : string) (n : Z).

Definition zero : number := Finite false "" 0.

Definition isDigit (c : ascii) : bool :=
  let n := nat_of_ascii c in (Nat.leb 48 n && Nat.leb n 57)%bool.

(** The longest prefix of decimal digits, and the rest. *)
Fixpoint spanDigits (s : string) : string * string :=
  match s with
  | EmptyString => (EmptyString, EmptyString)
  | String c s' =>
      if isDigit c
      then let (d, r) := spanDigits s' in (String c d, r)
      else (EmptyString, s)
  end.

Fixpoint stripZeros (s : string) : string :=
  match s with
  | EmptyString => EmptyString
  | String c s' => if Ascii.eqb c "0" then stripZeros s' else s
  end.

Definition stripTrailingZeros (s : string) : string :=
  rev (stripZeros (rev s)).

(** The mathematical value of the digits [int ++ frac] with the decimal
    point after [int], times [10^e]. *)
Definition decimal (neg : bool) (int frac : string) (e : Z) : number :=
  let l1 := stripZeros (int ++ frac) in
  let l2 := stripTrailingZeros l1 in
  if (l2 =? "")%string then zero
  else Finite neg l2 (len int - (len (int ++ frac) - len l1) + e).

(** The natural number a string of decimal digits denotes. *)
Definition natural (ds : string) : Z :=
  match NilEmpty.uint_of_string ds with
  | Some u => Z.of_N (N.of_uint u)
  | None => 0
  end.

Definition ofN (v : N) : number :=
  decimal false (NilEmpty.string_of_uint (N.to_uint v)) "" 0.

Definition ofZ (z : Z) : number :=
  decimal (z <? 0) (NilEmpty.string_of_uint (N.to_uint (Z.abs_N z))) "" 0.

(** ExponentPart, after its [e]: an optional sign and at least one digit. *)
Definition parseExponent (s : string) : option (Z * string) :=
  let '(sgn, s1) :=
    match s with
    | EmptyString => (1, s)
    | String c r =>
        if Ascii.eqb c "+" then (1, r)
        else if Ascii.eqb c "-" then (-1, r)
        else (1, s)
    end in
  let (ds, r) := spanDigits s1 in
  if (ds =? "")%string then None else Some (sgn * natural ds, r).

(** StrUnsignedDecimalLiteral: [Infinity], or digits with an optional
    fraction and an optional exponent, at least one digit in all. *)
Definition parseUnsignedDecimal (neg : bool) (s : string) : number :=
  if (s =? "Infinity")%string then Infinity neg else
  let (int, r1) := spanDigits s in
  let (frac, r2) :=
    match r1 with
    | EmptyString => (EmptyString, r1)
    | String c r => if Ascii.eqb c "." then spanDigits r
                    else (EmptyString, r1)
    end in
  if ((int =? "") && (frac =? ""))%string then NaN else
  match r2 with
  | EmptyString => decimal neg int frac 0
  | String c r3 =>
      if (Ascii.eqb c "e" || Ascii.eqb c "E")%bool then
        match parseExponent r3 with
        | Some (e, EmptyString) => decimal neg int frac e
        | _ => NaN
        end
      else NaN
  end.

Definition parseDecimal (s : string) : number :=
  match s with
  | EmptyString => parseUnsignedDecimal false s
  | String c r =>
      if Ascii.eqb c "+" then parseUnsignedDecimal false r
      else if Ascii.eqb c "-" then parseUnsignedDecimal true r
      else parseUnsignedDecimal false s
  end.

Definition digitValue (c : ascii) : option N :=
  let n := N_of_ascii c in
  if ((48 <=? n) && (n <=? 57))%N then Some (n - 48)%N
  else if ((97 <=? n) && (n <=? 102))%N then Some (n - 87)%N
  else if ((65 <=? n) && (n <=? 70))%N then Some (n - 55)%N
  else None.

Fixpoint radixValue (radix : N) (s : string) (acc : N) : option N :=
  match s with
  | EmptyString => Some acc
  | String c r =>
      match digitValue c with
      | Some d => if (d <? radix)%N then radixValue radix r (acc * radix + d)%N
                  else None
      | None => None
      end
  end.

(** NonDecimalIntegerLiteral, after its two-character prefix. *)
Definition parseRadix (radix : N) (s : string) : number :=
  if (s =? "")%string then NaN
  else match radixValue radix s 0 with
       | Some v => ofN v
       | None => NaN
       end.

(** StringToNumber: what [Number(s)] and the coercion of [isNaN(s)] compute
    for a string [s]. *)
Definition StringToNumber (s : string) : number :=
  let t := trim s in
  match t with
  | EmptyString => zero
  | String c EmptyString => parseDecimal t
  | String c (String x r) =>
      if (Ascii.eqb c "0" && (Ascii.eqb x "x" || Ascii.eqb x "X"))%bool
      then parseRadix 16 r
      else if (Ascii.eqb c "0" && (Ascii.eqb x "o" || Ascii.eqb x "O"))%bool
      then parseRadix 8 r
      else if (Ascii.eqb c "0" && (Ascii.eqb x "b" || Ascii.eqb x "B"))%bool
      then parseRadix 2 r
      else parseDecimal t
  end.

(** [isNaN(s)] for a string [s] *)
Definition isNaN (s : string) : bool :=
  match StringToNumber s with
  | NaN => true
  | _ => false
  end.

Fixpoint zeros (n : nat) : string :=
  match n with
  | O => EmptyString
  | S n' => String "0" (zeros n')
  end.

Definition natToString (z : Z) : string :=
  NilEmpty.string_of_uint (N.to_uint (Z.to_N z)).

(** *** The digits of a number in canonical form *)

Fixpoint allChars (P : ascii -> bool) (s : string) : bool :=
  match s with
  | EmptyString => true
  | String c s' => (P c && allChars P s')%bool
  end.





(** Number::toString in radix 10. *)
Definition NumberToString (x : number) : string :=
  match x with
  | NaN => "NaN"
  | Infinity false => "Infinity"
  | Infinity true => "-Infinity"
  | Finite neg ds n =>
      if (ds =? "")%string then "0" else
      (if neg then "-" else "") ++
      let k := len ds in
      if ((k <=? n) && (n <=? 21))%bool then ds ++ zeros (Z.to_nat (n - k))
      else if ((0 <? n) && (n <=? 21))%bool
      then take (Z.to_nat n) ds ++ "." ++ drop (Z.to_nat n) ds
      else if ((-6 <? n) && (n <=? 0))%bool
      then "0." ++ zeros (Z.to_nat (- n)) ++ ds
      else
        let e := n - 1 in
        let m := match ds with
                 | String c EmptyString => ds
                 | String c r => String c ("." ++ r)
                 | EmptyString => EmptyString
                 end in
        m ++ "e" ++ (if e <? 0 then "-" else "+") ++ natToString (Z.abs e)
  end.

End JsNumber.

(** ** Values, dates and JSON *)

Module Json.
Import JsString JsNumber.

(** The values the compiler handles.  A [Date] object is its time value in
    milliseconds since the epoch, [None] for an invalid date.  The
    properties of an object are kept in enumeration order. *)
Inductive jsval : Type :=
| VUndefined
| VNull
| VBool (b : bool)
| VNum (x : number)
| VStr (s : string)
| VDate (t : option Z)
| VArr (items : list jsval)
| VObj (props : list (string * jsval)).

Definition dquote : ascii := "034"%char.
Definition backslash : ascii := "092"%char.

(** *** Own properties in enumeration order

    Array-index keys come first, by increasing index; the other keys
    follow in the order of their creation. *)

Definition arrayIndex (k : string) : option N :=
  let (ds, r) := spanDigits k in
  if ((r =? "") && negb (ds =? "")
      && ((ds =? "0") || negb (String.prefix "0" ds)))%string%bool
  then
    let v := Z.to_N (natural ds) in
    if (v <? 4294967295)%N then Some v else None
  else None.

Fixpoint hasProp {A : Type} (o : list (string * A)) (k : string) : bool :=
  match o with
  | [] => false
  | (k', _) :: o' => (k' =? k)%string || hasProp o' k
  end.

Fixpoint replaceProp {A : Type} (o : list (string * A)) (k : string) (v : A)
  : list (string * A) :=
  match o with
  | [] => []
  | (k', v') :: o' =>
      if (k' =? k)%string then (k', v) :: o' else (k', v') :: replaceProp o' k v
  end.

Fixpoint insertIndexProp {A : Type} (o : list (string * A)) (i : N)
  (k : string) (v : A) : list (string * A) :=
  match o with
  | [] => [(k, v)]
  | (k', v') :: o' =>
      match arrayIndex k' with
      | Some j => if (j <? i)%N then (k', v') :: insertIndexProp o' i k v
                  else (k, v) :: o
      | None => (k, v) :: o
      end
  end.

(** CreateDataProperty: [k] becomes an own property of value [v]. *)
Definition defineProp {A : Type} (o : list (string * A)) (k : string) (v : A)
  : list (string * A) :=
  if hasProp o k then replaceProp o k v
  else match arrayIndex k with
       | Some i => insertIndexProp o i k v
       | None => (o ++ [(k, v)])%list
       end.

(** [o[k] = v] on an ordinary object.  Without an own property of that
    name, the key [__proto__] reaches the setter of [Object.prototype],
    which creates no property. *)
Definition setProp {A : Type} (o : list (string * A)) (k : string) (v : A)
  : list (string * A) :=
  if (negb (hasProp o k) && (k =? "__proto__")%string)%bool then o
  else defineProp o k v.

(** *** [Date.prototype.toISOString] *)

(** [k] decimal digits of [n], the low ones. *)
Fixpoint pad (k : nat) (n : Z) : string :=
  match k with
  | O => EmptyString
  | S k' => pad k' (n / 10) ++ String (ascii_of_nat (48 + Z.to_nat (n mod 10))) EmptyString
  end.

(** Year, month and day of a day number counted from 1970-01-01. *)
Definition civilFromDays (days : Z) : Z * Z * Z :=
  let z := days + 719468 in
  let era := z / 146097 in
  let doe := z - era * 146097 in
  let yoe := (doe - doe / 1460 + doe / 36524 - doe / 146096) / 365 in
  let doy := doe - (365 * yoe + yoe / 4 - yoe / 100) in
  let mp := (5 * doy + 2) / 153 in
  let d := doy - (153 * mp + 2) / 5 + 1 in
  let m := if mp <? 10 then mp + 3 else mp - 9 in
  let y := yoe + era * 400 + (if m <=? 2 then 1 else 0) in
  (y, m, d).

Definition toISOString (t : Z) : string :=
  let '(y, m, d) := civilFromDays (t / 86400000) in
  let ms := t mod 86400000 in
  (if ((0 <=? y) && (y <=? 9999))%bool then pad 4 y
   else (if y <? 0 then "-" else "+") ++ pad 6 (Z.abs y))
  ++ "-" ++ pad 2 m ++ "-" ++ pad 2 d
  ++ "T" ++ pad 2 (ms / 3600000) ++ ":" ++ pad 2 (ms / 60000 mod 60)
  ++ ":" ++ pad 2 (ms / 1000 mod 60) ++ "." ++ pad 3 (ms mod 1000) ++ "Z".

(** The characters of the text of [toISOString]. *)
Definition isoChar (c : ascii) : bool :=
  (isDigit c || Ascii.eqb c "-" || Ascii.eqb c "+" || Ascii.eqb c ":"
   || Ascii.eqb c "." || Ascii.eqb c "T" || Ascii.eqb c "Z")%bool.

(** TimeClip: a time value is at most 8.64e15 ms away from the epoch. *)
Definition TimeClip (t : option Z) : option Z :=
  match t with
  | Some ms => if Z.abs ms <=? 8640000000000000 then Some ms else None
  | None => None
  end.

(** *** [JSON.stringify] *)

Definition hexChar (n : nat) : ascii :=
  if Nat.ltb n 10 then ascii_of_nat (48 + n) else ascii_of_nat (87 + n).

Definition quoteChar (c : ascii) : string :=
  let n := nat_of_ascii c in
  if Ascii.eqb c dquote then String backslash (String dquote EmptyString)
  else if Ascii.eqb c backslash then String backslash (String backslash EmptyString)
  else if Nat.eqb n 8 then String backslash "b"
  else if Nat.eqb n 9 then String backslash "t"
  else if Nat.eqb n 10 then String backslash "n"
  else if Nat.eqb n 12 then String backslash "f"
  else if Nat.eqb n 13 then String backslash "r"
  else if Nat.ltb n 32
  then String backslash ("u00" ++ String (hexChar (Nat.div n 16))
                                     (String (hexChar (Nat.modulo n 16)) EmptyString))
  else String c EmptyString.

Fixpoint quoteChars (s : string) : string :=
  match s with
  | EmptyString => EmptyString
  | String c s' => quoteChar c ++ quoteChars s'
  end.

(** QuoteJSONString *)
Definition quote (s : string) : string :=
  String dquote (quoteChars s ++ String dquote EmptyString).

Definition joinComma (l : list string) : string := String.concat "," l.

(** [JSON.stringify(v)]; [None] is the answer [undefined]. *)
Fixpoint stringify (v : jsval) : option string :=
  match v with
  | VUndefined => None
  | VNull => Some "null"
  | VBool b => Some (if b then "true" else "false")
  | VNum x => Some (match x with
                    | Finite _ _ _ => NumberToString x
                    | _ => "null"
                    end)
  | VStr s => Some (quote s)
  | VDate t => Some (match t with
                     | Some ms => quote (toISOString ms)
                     | None => "null"
                     end)
  | VArr l =>
      Some ("[" ++ joinComma
              ((fix items (l : list jsval) : list string :=
                  match l with
                  | [] => []
                  | x :: r =>
                      match stringify x with
                      | Some s => s
                      | None => "null"
                      end :: items r
                  end) l) ++ "]")
  | VObj l =>
      Some ("{" ++ joinComma
              ((fix members (l : list (string * jsval)) : list string :=
                  match l with
                  | [] => []
                  | (k, x) :: r =>
                      match stringify x with
                      | Some s => (quote k ++ ":" ++ s) :: members r
                      | None => members r
                      end
                  end) l) ++ "}")
  end.

(** *** [JSON.parse] *)

Definition isJsonWs (c : ascii) : bool :=
  let n := nat_of_ascii c in
  (Nat.eqb n 9 || Nat.eqb n 10 || Nat.eqb n 13 || Nat.eqb n 32)%bool.

Fixpoint skipWs (s : string) : string :=
  match s with
  | EmptyString => EmptyString
  | String c s' => if isJsonWs c then skipWs s' else s
  end.

Definition hex4 (a b c d : ascii) : option N :=
  match digitValue a, digitValue b, digitValue c, digitValue d with
  | Some x, Some y, Some z, Some w => Some (((x * 16 + y) * 16 + z) * 16 + w)%N
  | _, _, _, _ => None
  end.

Definition consChar (c : ascii) (r : option (string * string))
  : option (string * string) :=
  match r with
  | Some (s, rest) => Some (String c s, rest)
  | None => None
  end.

(** The characters of a JSON string, after its opening quote, and the
    text after its closing quote.  An escape for a code unit above 255
    is outside the 8-bit character model and is refused. *)
Fixpoint parseString (s : string) : option (string * string) :=
  match s with
  | EmptyString => None
  | String c r =>
      if Ascii.eqb c dquote then Some (EmptyString, r)
      else if Ascii.eqb c backslash then
        match r with
        | EmptyString => None
        | String e r1 =>
            if Ascii.eqb e dquote then consChar dquote (parseString r1)
            else if Ascii.eqb e backslash then consChar backslash (parseString r1)
            else if Ascii.eqb e "/" then consChar "/" (parseString r1)
            else if Ascii.eqb e "b" then consChar (ascii_of_nat 8) (parseString r1)
            else if Ascii.eqb e "f" then consChar (ascii_of_nat 12) (parseString r1)
            else if Ascii.eqb e "n" then consChar (ascii_of_nat 10) (parseString r1)
            else if Ascii.eqb e "r" then consChar (ascii_of_nat 13) (parseString r1)
            else if Ascii.eqb e "t" then consChar (ascii_of_nat 9) (parseString r1)
            else if Ascii.eqb e "u" then
              match r1 with
              | String h1 (String h2 (String h3 (String h4 r2))) =>
                  match hex4 h1 h2 h3 h4 with
                  | Some n => if (n <? 256)%N
                              then consChar (ascii_of_N n) (parseString r2)
                              else None
                  | None => None
                  end
              | _ => None
              end
            else None
        end
      else if Nat.ltb (nat_of_ascii c) 32 then None
      else consChar c (parseString r)
  end.

(** A JSON number: an optional minus, an integer part without a
    superfluous leading zero, an optional fraction, an optional exponent. *)
Definition parseNumber (s : string) : option (number * string) :=
  let '(neg, s1) :=
    match s with
    | String "-"%char r => (true, r)
    | _ => (false, s)
    end in
  let (int, r1) := spanDigits s1 in
  if ((int =? "") || (String.prefix "0" int && negb (int =? "0")))%string%bool
  then None
  else
    let frac :=
      match r1 with
      | String "."%char r =>
          let (f, r') := spanDigits r in
          if (f =? "")%string then None else Some (f, r')
      | _ => Some (EmptyString, r1)
      end in
    match frac with
    | None => None
    | Some (f, r2) =>
        match r2 with
        | String c r3 =>
            if (Ascii.eqb c "e" || Ascii.eqb c "E")%bool then
              match parseExponent r3 with
              | Some (e, r4) => Some (decimal neg int f e, r4)
              | None => None
              end
            else Some (decimal neg int f 0, r2)
        | EmptyString => Some (decimal neg int f 0, r2)
        end
    end.

(** The recursive descent of [JSON.parse].  Every call consumes a character
    before it recurses, so fuel above the length of the text is never
    exhausted. *)
Fixpoint parseValue (fuel : nat) (s : string) : option (jsval * string) :=
  match fuel with
  | O => None
  | S fuel' =>
      match skipWs s with
      | EmptyString => None
      | String c r =>
          if Ascii.eqb c "{" then
            if String.prefix "}" (skipWs r) then Some (VObj [], drop 1 (skipWs r))
            else parseMembers fuel' (skipWs r) []
          else if Ascii.eqb c "[" then
            if String.prefix "]" (skipWs r) then Some (VArr [], drop 1 (skipWs r))
            else parseElements fuel' (skipWs r) []
          else if Ascii.eqb c dquote then
            match parseString r with
            | Some (str, r') => Some (VStr str, r')
            | None => None
            end
          else if String.prefix "true" (String c r)
          then Some (VBool true, drop 4 (String c r))
          else if String.prefix "false" (String c r)
          then Some (VBool false, drop 5 (String c r))
          else if String.prefix "null" (String c r)
          then Some (VNull, drop 4 (String c r))
          else match parseNumber (String c r) with
               | Some (x, r') => Some (VNum x, r')
               | None => None
               end
      end
  end
with parseElements (fuel : nat) (s : string) (acc : list jsval)
  : option (jsval * string) :=
  match fuel with
  | O => None
  | S fuel' =>
      match parseValue fuel' s with
      | Some (v, r) =>
          match skipWs r with
          | EmptyString => None
          | String c r' =>
              if Ascii.eqb c "," then parseElements fuel' r' (acc ++ [v])%list
              else if Ascii.eqb c "]" then Some (VArr (acc ++ [v])%list, r')
              else None
          end
      | None => None
      end
  end
with parseMembers (fuel : nat) (s : string) (acc : list (string * jsval))
  : option (jsval * string) :=
  match fuel with
  | O => None
  | S fuel' =>
      match skipWs s with
      | EmptyString => None
      | String c r =>
          if Ascii.eqb c dquote then
            match parseString r with
            | Some (k, r1) =>
                match skipWs r1 with
                | EmptyString => None
                | String c2 r2 =>
                    if Ascii.eqb c2 ":" then
                      match parseValue fuel' r2 with
                      | Some (v, r3) =>
                          match skipWs r3 with
                          | EmptyString => None
                          | String c4 r4 =>
                              if Ascii.eqb c4 ","
                              then parseMembers fuel' r4 (defineProp acc k v)
                              else if Ascii.eqb c4 "}"
                              then Some (VObj (defineProp acc k v), r4)
                              else None
                          end
                      | None => None
                      end
                    else None
                end
            | None => None
            end
          else None
      end
  end.

(** [JSON.parse(s)]; [None] is a [SyntaxError]. *)
Definition parse (s : string) : option jsval :=
  match parseValue (2 * String.length s + 2) s with
  | Some (v, r) => if (skipWs r =? "")%string then Some v else None
  | None => None
  end.

End Json.

(** ** [lib/utils/query.ts]: the pair tokenizer *)

Module Tokenizer.
Import JsString.

Definition kStart : string := "{[".
Definition kEnd : string := "}]".
Definition kKeyAllowedCharacters : string :=
  "abcdefghijklmnopqrstuvwxyzABCDEFGHIJKLMNOPQRSTUVWXYZ0123456789.$".
Definition kDelimiter : string := ":,".

(** [kDelimiter[n]]; the two indices used are inside the constant. *)
Definition delimiter (n : nat) : ascii :=
  match String.get n kDelimiter with
  | Some c => c
  | None => zero
  end.

(** The object [result] of [findNextPair]. *)
Record pair : Type := mkPair {
  startIndex : Z;
  endIndex : Z;
  key : string;
  value : string
}.

Definition pushKey (r : pair) (c : ascii) : pair :=
  mkPair (startIndex r) (endIndex r) (key r ++ String c EmptyString) (value r).

Definition pushValue (r : pair) (c : ascii) : pair :=
  mkPair (startIndex r) (endIndex r) (key r) (value r ++ String c EmptyString).

Definition setEndIndex (r : pair) (e : Z) : pair :=
  mkPair (startIndex r) e (key r) (value r).

(** The body of the [for] loop of [findNextPair]: [chars] is the text from
    index [i] on, [foundKey] and [nested] are the two locals, [r] is
    [result].  The loop ends at the end of the text or at the [break]. *)
Fixpoint scan (chars : string) (i : Z) (foundKey : bool) (nested : Z)
  (r : pair) : pair :=
  match chars with
  | EmptyString => r
  | String char rest =>
      if negb foundKey then
        (* looking for key *)
        if includesChar kKeyAllowedCharacters char
        then scan rest (i + 1) false nested (pushKey r char)
        else if Ascii.eqb char (delimiter 0)
        then scan rest (i + 1) true nested r
        else scan rest (i + 1) false nested r
      else
        (* looking for value *)
        let nested1 := if includesChar kStart char then nested + 1 else nested in
        let nested2 := if includesChar kEnd char then nested1 - 1 else nested1 in
        if ((nested2 =? 0) && Ascii.eqb char (delimiter 1))%bool
        then setEndIndex r (i + 1)
        else scan rest (i + 1) true nested2 (pushValue r char)
  end.

(** [findNextPair(text, startIndex)].  The loop variable starts at
    [startIndex]; below index 0 [text[i]] is [undefined], which is neither
    a key character nor the colon, so the scan proper starts at
    [max 0 startIndex]. *)
Definition findNextPair (text : string) (startIndex : Z) : pair :=
  let i := Z.max 0 startIndex in
  scan (drop (Z.to_nat i) text) i false 0
       (mkPair startIndex 0 EmptyString EmptyString).

(** *** The words of the specification on the tokenizer

    The definitions below restate the tokenizer the way the specification
    describes it; the properties compare them with [scan]. *)

(** The change of the bracket depth at a character of the value. *)
Definition depthChange (c : ascii) : Z :=
  (if includesChar kStart c then 1 else 0)
  - (if includesChar kEnd c then 1 else 0).

(** The bracket depth after a piece of value text. *)
Fixpoint depth (s : string) : Z :=
  match s with
  | EmptyString => 0
  | String c s' => depthChange c + depth s'
  end.

(** No comma of [v] stands at bracket depth 0: the value has no
    terminator. *)
Definition unterminated (v : string) : Prop :=
  forall p q : string, v = p ++ String "," q -> depth p <> 0.

(** The text before the first colon, and the text after it. *)
Fixpoint beforeColon (s : string) : string :=
  match s with
  | EmptyString => EmptyString
  | String c s' => if Ascii.eqb c ":" then EmptyString
                   else String c (beforeColon s')
  end.

Fixpoint afterColon (s : string) : string :=
  match s with
  | EmptyString => EmptyString
  | String c s' => if Ascii.eqb c ":" then s' else afterColon s'
  end.

(** The characters of the key class among those of [s]. *)
Fixpoint keyChars (s : string) : string :=
  match s with
  | EmptyString => EmptyString
  | String c s' =>
      if includesChar kKeyAllowedCharacters c then String c (keyChars s')
      else keyChars s'
  end.

(** "Callers drive repeated extraction by feeding [endIndex] of one call as
    [startIndex] of the next", until the pair with an empty key and an
    empty value: the pairs of a filter text from index [i] on. *)
Fixpoint tokenize (fuel : nat) (filter : string) (i : Z) : option (list pair) :=
  match fuel with
  | O => None
  | S fuel' =>
      if i <=? len filter then
        let p := findNextPair filter i in
        if ((key p =? "") && (value p =? ""))%string%bool then Some []
        else option_map (cons p) (tokenize fuel' filter (endIndex p))
      else Some []
  end.

End Tokenizer.

(** ** The helpers of [@kakang/validator]

    The package is not part of the repository.  Its type tests are taken
    by their names, [isObject] as [typeof value === 'object'] (the source
    pairs it with [!isNull]).  The tests on the content of a value and
    the parts of [Date] that depend on the host are parameters of the
    embedding, gathered in [Env]; [EnvOk] states what is assumed of them. *)

Module Validator.
Import JsString JsNumber Json.

(** Modelled from the spec: the type tests of the absent package, which
    the spec reads as "a string", "a number", "a sequence" and, for
    [isObject], "a structured value"; the source guards [isObject] with
    [!isNull], as one does for [typeof value === 'object']. *)
Definition isString (v : jsval) : bool :=
  match v with VStr _ => true | _ => false end.

Definition isNumber (v : jsval) : bool :=
  match v with VNum _ => true | _ => false end.

Definition isArray (v : jsval) : bool :=
  match v with VArr _ => true | _ => false end.

Definition isNull (v : jsval) : bool :=
  match v with VNull => true | _ => false end.

Definition isObject (v : jsval) : bool :=
  match v with
  | VNull | VDate _ | VArr _ | VObj _ => true
  | _ => false
  end.

(** The parameters of the embedding: the tests of the absent package on
    the content of a value, and the parts of [Date] that depend on the
    host. *)
Record Env : Type := mkEnv {
  (** [Date.parse(s)]: the time value of a date text, [None] for [NaN];
      it depends on the host and on its time zone. *)
  Date_parse : string -> option Z;
  (** [Date.prototype.toString] of a time value. *)
  Date_toString : option Z -> string;
  (** [Date.isISO8601Date(s)] *)
  isISO8601Date : string -> bool;
  (** [isJSON(v)] *)
  isJSON : jsval -> bool;
  (** [isExist(v)] *)
  isExist : jsval -> bool
}.

Definition startsNumeric (s : string) : bool :=
  match s with
  | String c _ => (isDigit c || Ascii.eqb c "+" || Ascii.eqb c "-")%bool
  | EmptyString => false
  end.

(** Modelled from the spec: what the spec says of the absent helpers.
    A text that matches the ISO-8601 date/time grammar begins with a digit
    or a sign; [isJSON] accepts a mapping and rejects a date ("a
    mapping-like structure, not a number, not a string, not a sequence");
    [isExist] tells a trimmed key from the blank one ("blank keys, after
    trimming, are skipped"). *)
Record EnvOk (E : Env) : Prop := mkEnvOk {
  isISO8601Date_head : forall s, isISO8601Date E s = true -> startsNumeric s = true;
  isJSON_object : forall props, isJSON E (VObj props) = true;
  isJSON_date : forall t, isJSON E (VDate t) = false;
  isExist_string : forall s, trim s = s -> isExist E (VStr s) = negb (s =? "")%string
}.

(** *** An environment after the specification

    Modelled from the spec: a host for the parameters of [Env].  Its date
    grammar is the calendar date [YYYY-MM-DD], alone or followed by
    [THH:MM:SS], an optional fraction of three digits and an optional
    [Z]; every such text is read as UTC. *)

Definition digitOf (c : ascii) : Z := Z.of_nat (nat_of_ascii c) - 48.

Definition number2 (a b : ascii) : option Z :=
  if (isDigit a && isDigit b)%bool then Some (10 * digitOf a + digitOf b)
  else None.

Definition daysFromCivil (y m d : Z) : Z :=
  let y' := if m <=? 2 then y - 1 else y in
  let era := y' / 400 in
  let yoe := y' - era * 400 in
  let doy := (153 * (if 2 <? m then m - 3 else m + 9) + 2) / 5 + d - 1 in
  let doe := yoe * 365 + yoe / 4 - yoe / 100 + doy in
  era * 146097 + doe - 719468.

Definition specTime (s : string) : option Z :=
  match s with
  | String h1 (String h2 (String c1 (String m1 (String m2
      (String c2 (String s1 (String s2 rest))))))) =>
      match number2 h1 h2, number2 m1 m2, number2 s1 s2 with
      | Some h, Some m, Some sec =>
          if (Ascii.eqb c1 ":" && Ascii.eqb c2 ":"
              && (h <=? 23) && (m <=? 59) && (sec <=? 59))%bool then
            let t := (h * 60 + m) * 60000 + sec * 1000 in
            match rest with
            | EmptyString | String "Z" EmptyString => Some t
            | String "." (String f1 (String f2 (String f3 rest'))) =>
                if (isDigit f1 && isDigit f2 && isDigit f3
                    && ((rest' =? "") || (rest' =? "Z"))%string)%bool
                then Some (t + 100 * digitOf f1 + 10 * digitOf f2 + digitOf f3)
                else None
            | _ => None
            end
          else None
      | _, _, _ => None
      end
  | _ => None
  end.

(** Modelled from the spec: the time value of a text of the date grammar
    above, for the absent [Date.isISO8601Date] and for [Date.parse]. *)
Definition specDate (s : string) : option Z :=
  match s with
  | String y1 (String y2 (String y3 (String y4 (String c1 (String m1
      (String m2 (String c2 (String d1 (String d2 rest))))))))) =>
      match number2 y1 y2, number2 y3 y4, number2 m1 m2, number2 d1 d2 with
      | Some yh, Some yl, Some m, Some d =>
          if (Ascii.eqb c1 "-" && Ascii.eqb c2 "-"
              && (1 <=? m) && (m <=? 12) && (1 <=? d) && (d <=? 31))%bool then
            let day := daysFromCivil (100 * yh + yl) m d * 86400000 in
            match rest with
            | EmptyString => Some day
            | String c time =>
                if Ascii.eqb c "T" then
                  match specTime time with
                  | Some t => Some (day + t)
                  | None => None
                  end
                else None
            end
          else None
      | _, _, _, _ => None
      end
  | _ => None
  end.

(** Modelled from the spec: the absent helpers, on the host above.
    [isJSON] accepts the mappings only and [isExist] refuses [undefined],
    [null] and the empty string. *)
Definition specEnv : Env :=
  mkEnv specDate
        (fun t => match t with
                  | Some ms => toISOString ms
                  | None => "Invalid Date"
                  end)
        (fun s => match specDate s with Some _ => true | None => false end)
        (fun v => match v with VObj _ => true | _ => false end)
        (fun v => match v with
                  | VUndefined | VNull => false
                  | VStr s => negb (s =? "")%string
                  | _ => true
                  end).

End Validator.

(** ** [lib/utils/query.ts]: [normalize] and [transformRegExpSearch] *)

Module Query.
Import JsString JsNumber Json Validator.

Section WithEnv.
Variable E : Env.

(** [String(v)] *)
Fixpoint ToString (v : jsval) : string :=
  match v with
  | VUndefined => "undefined"
  | VNull => "null"
  | VBool b => if b then "true" else "false"
  | VNum x => NumberToString x
  | VStr s => s
  | VDate t => Date_toString E t
  | VArr l =>
      joinComma
        ((fix items (l : list jsval) : list string :=
            match l with
            | [] => []
            | x :: r =>
                match x with
                | VUndefined | VNull => EmptyString
                | _ => ToString x
                end :: items r
            end) l)
  | VObj _ => "[object Object]"
  end.

Definition elements (v : jsval) : list jsval :=
  match v with VArr l => l | _ => [] end.

(** [text.startsWith('{') && text.endsWith('}')] for a string [text] *)
Definition wrapped (text : jsval) : option string :=
  match text with
  | VStr s => if (startsWith "{" s && endsWith "}" s)%bool then Some s else None
  | _ => None
  end.

(** [Object.entries(o).forEach(([k, v]) => { o[k] = f(k, v) })] on the
    properties [o] of an object: [entries] is what is left of the
    snapshot that [Object.entries] took. *)
Fixpoint forEachEntry (f : string -> jsval -> result jsval)
  (entries o : list (string * jsval)) : result (list (string * jsval)) :=
  match entries with
  | [] => Ok o
  | (k, v) :: rest => nv <- f k v ;; forEachEntry f rest (setProp o k nv)
  end.

(** [isObject(text) && !isNull(text) ? JSON.stringify(text) : String(text)];
    were [JSON.stringify] to answer [undefined], the call [tmp.includes]
    that follows would throw. *)
Definition textualForm (text : jsval) : result string :=
  if (isObject text && negb (isNull text))%bool
  then match stringify text with
       | Some s => Ok s
       | None => Err TypeError
       end
  else Ok (ToString text).

Fixpoint normalize (fuel : nat) (text : jsval) : result jsval :=
  match fuel with
  | O => Err OutOfFuel
  | S fuel' =>
      (* security guard *)
      tmp <- textualForm text ;;
      if (includes "$function" tmp || includes "$accumulator" tmp)%bool
      then Err InvalidOperator
      else
      (* 1. a string wrapped by '{' and '}' is treated as JSON *)
      match wrapped text with
      | Some s =>
          match parse s with
          | Some v => normalize fuel' v
          | None => Err SyntaxError
          end
      | None =>
      (* 2. 'true' and 'false' *)
      if (toLowerCase tmp =? "true")%string then Ok (VBool true)
      else if (toLowerCase tmp =? "false")%string then Ok (VBool false)
      (* 3. a number *)
      else if negb (isNaN tmp) then Ok (VNum (StringToNumber tmp))
      (* 4. an ISO8601 date *)
      else if isISO8601Date E tmp then Ok (VDate (TimeClip (Date_parse E tmp)))
      (* 5. an array: each item is normalized *)
      else if isArray text
      then items <- mapM (normalize fuel') (elements text) ;; Ok (VArr items)
      (* 6. JSON: each pair of key-value is normalized *)
      else if (negb (isNumber text) && negb (isString text)
               && negb (isArray text) && isJSON E text)%bool
      then
        match parse tmp with
        | None => Err SyntaxError
        | Some o =>
            let each (k : string) (v : jsval) : result jsval :=
              if ((k =? "dateString") || (k =? "$regex"))%string
              then Ok (VStr (ToString v))
              else normalize fuel' v in
            match o with
            | VObj props =>
                props' <- forEachEntry each props props ;; Ok (VObj props')
            | VArr l => items <- mapM (normalize fuel') l ;; Ok (VArr items)
            | VStr s => if (s =? "")%string then Ok o else Err TypeError
            | VNull | VUndefined => Err TypeError
            | _ => Ok o
            end
        end
      (* 7. the raw value *)
      else Ok text
      end
  end.

(** The terminal types of the specification: boolean, number, date and
    string. *)
Definition terminal (v : jsval) : bool :=
  match v with
  | VBool _ | VNum _ | VDate _ | VStr _ => true
  | _ => false
  end.

Definition transformRegExpSearch (text : jsval) : jsval :=
  match text with
  | VStr s =>
      if (negb (startsWith "{" s) && negb (endsWith "}" s))%bool
      then VObj [("$regex", text); ("$options", VStr "i")]
      else text
  | _ => text
  end.

End WithEnv.

(** [transformRegExpSearch('bob')], and its JSON text. *)
Definition regexBob : jsval :=
  VObj [("$regex", VStr "bob"); ("$options", VStr "i")].

Definition regexBobText : string :=
  Eval vm_compute in
    match stringify regexBob with
    | Some s => s
    | None => EmptyString
    end.

End Query.

(** ** The stage builder of [@kakang/mongodb-aggregate-builder] *)

Module AggregateBuilder.
Import Json.

(** Modelled from the spec: the builder class is not part of the
    repository.  The spec asks of it "an ordered, appendable, concatenable
    sequence of opaque pipeline-stage values", where "concatenation
    preserves order (sequence A followed by sequence B)".  A stage records
    the method that appended it and its argument. *)
Inductive stage : Type :=
| Match (opt : jsval)              (* [builder.match(opt)] *)
| Sort (opt : list (string * Z))   (* [builder.sort(opt)] *)
| Limit (n : Z)                    (* [builder.limit(n)] *)
| Skip (n : Z)                     (* [builder.skip(n)] *)
| Stage (s : jsval).               (* a stage of the caller's own *)

Definition AggregateBuilder : Type := list stage.

(** Modelled from the spec: [new AggregateBuilder()], the methods that
    append one stage, and [concat]. *)
Definition new : AggregateBuilder := [].

Definition append (b : AggregateBuilder) (s : stage) : AggregateBuilder :=
  (b ++ [s])%list.

Definition concat (b other : AggregateBuilder) : AggregateBuilder :=
  (b ++ other)%list.

End AggregateBuilder.

(** ** [lib/controller/default.ts]: the pipeline compiler *)

Module Controller.
Import JsString JsNumber Json Validator Query Tokenizer AggregateBuilder.

(** The fields of a controller that the compiler reads, and the builder
    that [buildAggregateBuilder] answers (empty unless a subclass
    overrides the method). *)
Record Controller : Type := mkController {
  autoRegExpSearch : bool;
  searchFields : list string;
  postMatchKeywords : list string;
  buildAggregateBuilder : AggregateBuilder
}.

Section WithController.
Variable E : Env.
Variable this : Controller.

(** The loop over [postMatchKeywords] of [computePreQuery]. *)
Fixpoint preShouldAdd (keywords : list string) (key : string)
  (shouldAdd : bool) : bool :=
  match keywords with
  | [] => shouldAdd
  | kw :: rest =>
      if negb shouldAdd then shouldAdd
      else preShouldAdd rest key (if includes kw key then false else shouldAdd)
  end.

(** The loop over [postMatchKeywords] of [computePostQuery]. *)
Fixpoint postShouldAdd (keywords : list string) (key : string)
  (shouldAdd : bool) : bool :=
  match keywords with
  | [] => shouldAdd
  | kw :: rest =>
      if shouldAdd then shouldAdd
      else postShouldAdd rest key (if includes kw key then true else shouldAdd)
  end.

(** [if (!filter.endsWith(',')) filter += ','] *)
Definition terminated (filter : string) : string :=
  if endsWith "," filter then filter else filter ++ ",".

(** The loop over the filter text of [computePreQuery], at its test
    [i <= filter.length]; [n] is the fuel of the calls of [normalize]. *)
Fixpoint preLoop (n fuel : nat) (filter : string) (i : Z) (arr : list jsval)
  : result (list jsval) :=
  match fuel with
  | O => Err OutOfFuel
  | S fuel' =>
      if i <=? len filter then
        let p := findNextPair filter i in
        if ((key p =? "") && (value p =? ""))%string%bool then Ok arr
        else
          arr' <- (if preShouldAdd (postMatchKeywords this) (key p) true
                   then v <- normalize E n (VStr (value p)) ;;
                        Ok (arr ++ [VObj [(key p, v)]])%list
                   else Ok arr) ;;
          preLoop n fuel' filter (endIndex p - 1 + 1) arr'
      else Ok arr
  end.

(** The loop over the filter text of [computePostQuery]. *)
Fixpoint postLoop (n fuel : nat) (filter : string) (i : Z) (arr : list jsval)
  : result (list jsval) :=
  match fuel with
  | O => Err OutOfFuel
  | S fuel' =>
      if i <=? len filter then
        let p := findNextPair filter i in
        if ((key p =? "") && (value p =? ""))%string%bool then Ok arr
        else
          arr' <- (if postShouldAdd (postMatchKeywords this) (key p) false
                   then v <- normalize E n (VStr (value p)) ;;
                        Ok (arr ++ [VObj [(key p, v)]])%list
                   else Ok arr) ;;
          postLoop n fuel' filter (endIndex p - 1 + 1) arr'
      else Ok arr
  end.

(** [opt] after [if (arr.length > 0) opt.$and = arr] *)
Definition matchOpt (arr : list jsval) : jsval :=
  match arr with
  | [] => VObj []
  | _ :: _ => VObj [("$and", VArr arr)]
  end.

Definition computePreQuery (fuel : nat) (search filter : jsval)
  : result AggregateBuilder :=
  arr <- (if ((isString search || isObject search) && isExist E search
              && (0 <? Z.of_nat (List.length (searchFields this))))%bool
          then
            let search' := if autoRegExpSearch this
                           then transformRegExpSearch search else search in
            sub <- mapM (fun field => v <- normalize E fuel search' ;;
                                      Ok (VObj [(field, v)]))
                        (searchFields this) ;;
            Ok [VObj [("$or", VArr sub)]]
          else Ok []) ;;
  arr <- match filter with
         | VStr f => preLoop fuel fuel (terminated f) 0 arr
         | _ => Ok arr
         end ;;
  Ok (append new (Match (matchOpt arr))).

(** [false] is [None]. *)
Definition computePostQuery (fuel : nat) (filter : jsval)
  : result (option AggregateBuilder) :=
  arr <- match filter with
         | VStr f => postLoop fuel fuel (terminated f) 0 []
         | _ => Ok []
         end ;;
  match arr with
  | [] => Ok None
  | _ :: _ => Ok (Some (append new (Match (matchOpt arr))))
  end.

(** The function passed to [forEach] in [computeSort], on [opt]. *)
Definition sortTerm (opt : list (string * Z)) (o : string)
  : list (string * Z) :=
  let orderKey := if startsWith "-" o then "-" else "+" in
  let key := trim (replace orderKey "" o) in
  let order := if (orderKey =? "-")%string then -1 else 1 in
  (* prevent empty key *)
  if isExist E (VStr key) then setProp opt key order else opt.

Definition computeSort (sort : option string) : option AggregateBuilder :=
  match sort with
  | Some sort =>
      let opt := fold_left sortTerm (split "," sort) [] in
      Some (append new (Sort opt))
  | None => None
  end.

Definition computeOption (page pageSize : option Z) : option AggregateBuilder :=
  match page, pageSize with
  | Some page, Some pageSize =>
      let skip := if 0 <? page then (page - 1) * pageSize else 0 in
      Some (append (append new (Limit (pageSize + skip))) (Skip skip))
  | _, _ => None
  end.

Definition concatIf (b : AggregateBuilder) (o : option AggregateBuilder)
  : AggregateBuilder :=
  match o with
  | Some other => concat b other
  | None => b
  end.

Definition computePipeline (fuel : nat) (search filter : jsval)
  (sort : option string) (page pageSize : option Z) : result AggregateBuilder :=
  builder <- computePreQuery fuel search filter ;;
  let builder := concat builder (buildAggregateBuilder this) in
  let s := computeSort sort in
  let builder := concatIf builder s in
  let p := computeOption page pageSize in
  let builder := concatIf builder p in
  q <- computePostQuery fuel filter ;;
  Ok (concatIf builder q).

(** *** The words of the specification on the classifier *)

(** "A key belongs to the post class iff it contains at least one
    post-keyword." *)
Definition hasPostKeyword (key : string) : bool :=
  existsb (fun kw => includes kw key) (postMatchKeywords this).

Definition preClass (p : pair) : bool := negb (hasPostKeyword (key p)).
Definition postClass (p : pair) : bool := hasPostKeyword (key p).

(** The condition [{ [key]: normalize(value) }] that a pair contributes,
    [n] being the fuel of the call of [normalize]. *)
Definition conditionOf (n : nat) (p : pair) (c : jsval) : Prop :=
  exists v, normalize E n (VStr (value p)) = Ok v /\ c = VObj [(key p, v)].

End WithController.
End Controller.

(** ** The rounds of the two filter loops *)

Module FilterLoop.
Import JsString JsNumber Json Validator Query Tokenizer.

(** [key === '' && value === ''], the test of the [break] of the two
    loops. *)
Definition closing (p : pair) : bool :=
  ((key p =? "") && (value p =? ""))%string%bool.

Section WithClass.
Variable E : Env.
Variable class : pair -> bool.

(** The loops of [computePreQuery] and [computePostQuery] differ in the
    test on the key only: the loop, with that test as the parameter
    [class]. *)
Fixpoint classLoop (n fuel : nat) (filter : string) (i : Z) (arr : list jsval)
  : result (list jsval) :=
  match fuel with
  | O => Err OutOfFuel
  | S fuel' =>
      if i <=? len filter then
        let p := findNextPair filter i in
        if closing p then Ok arr
        else
          arr' <- (if class p
                   then v <- normalize E n (VStr (value p)) ;;
                        Ok (arr ++ [VObj [(key p, v)]])%list
                   else Ok arr) ;;
          classLoop n fuel' filter (endIndex p) arr'
      else Ok arr
  end.

End WithClass.

(** [visits filter i j]: a loop that is at index [i] of the filter text is
    at index [j] some rounds later (none, when [j] is [i]). *)
Inductive visits (filter : string) : Z -> Z -> Prop :=
| visits_here (i : Z) : visits filter i i
| visits_next (i j : Z) :
    i <= len filter ->
    closing (findNextPair filter i) = false ->
    visits filter (endIndex (findNextPair filter i)) j ->
    visits filter i j.

(** At index [j] the loop finds a pair that has no end: the loop goes on,
    [endIndex] is 0 and the next round is at index 0 again. *)
Definition restarts (filter : string) (j : Z) : Prop :=
  j <= len filter
  /\ closing (findNextPair filter j) = false
  /\ endIndex (findNextPair filter j) = 0.

(** *** Filter texts written from pairs

    The definitions below describe the filter texts that a caller writes
    from a list of keys and values; the properties compare what the
    tokenizer and the compiler make of such a text with that list. *)

(** The text of the pairs [kvs]: each pair is written as the key, a colon,
    the value and a comma. *)
Fixpoint filterText (kvs : list (string * string)) : string :=
  match kvs with
  | [] => EmptyString
  | (k, v) :: rest => k ++ String ":" (v ++ String "," (filterText rest))
  end.

(** The results of [findNextPair] for the pairs [kvs] written from index
    [i] on. *)
Fixpoint pairsAt (i : Z) (kvs : list (string * string)) : list pair :=
  match kvs with
  | [] => []
  | (k, v) :: rest =>
      let e := i + len k + 1 + len v + 1 in
      mkPair i e k v :: pairsAt e rest
  end.

(** A value that can be written: read from bracket depth [n], no comma of
    [v] stands at depth 0 and [v] ends at depth 0. *)
Fixpoint closes (n : Z) (v : string) : bool :=
  match v with
  | EmptyString => n =? 0
  | String c v' =>
      if ((n + depthChange c =? 0) && Ascii.eqb c ",")%bool then false
      else closes (n + depthChange c) v'
  end.

(** A pair that can be written: the key is made of characters of the key
    class, the value can be written, and the two are not both empty. *)
Definition wellFormed (kv : string * string) : bool :=
  (allChars (includesChar kKeyAllowedCharacters) (fst kv)
   && closes 0 (snd kv)
   && negb ((fst kv =? "") && (snd kv =? ""))%string)%bool.

(** A value without the two guarded operators that is not wrapped in
    braces. *)
Definition plainValue (v : string) : bool :=
  (negb (includes "$function" v || includes "$accumulator" v)
   && negb (startsWith "{" v && endsWith "}" v))%bool.

End FilterLoop.

(** ** The regular-expression search *)

Module Search.
Import JsString Json.

(** What [transformRegExpSearch] answers for a text that it transforms. *)
Definition regexSearch (s : string) : jsval :=
  VObj [("$regex", VStr s); ("$options", VStr "i")].

(** The JSON text of [regexSearch s]. *)
Definition regexSearchText (s : string) : string :=
  "{" ++ quote "$regex" ++ ":" ++ quote s ++ ","
  ++ quote "$options" ++ ":" ++ quote "i" ++ "}".

End Search.

(** ** The terms of a sort text *)

Module SortTerm.
Import JsString.

(** The three constants of the function that [computeSort] passes to
    [forEach], for the sort term [o]. *)
Definition orderKey (o : string) : string :=
  if startsWith "-" o then "-" else "+".

Definition sortKey (o : string) : string := trim (replace (orderKey o) "" o).

Definition sortOrder (o : string) : Z :=
  if (orderKey o =? "-")%string then -1 else 1.

End SortTerm.

(** ** [lib/utils/query.ts]: the update queries *)

Module UpdateQuery.
Import JsString JsNumber Json.

(** The operator names of [isUpdateQuery]. *)
Definition updateOperators : list string :=
  ["$currentDate"; "$inc"; "$min"; "$max"; "$mul"; "$rename"; "$set";
   "$setOnInsert"; "$unset"; "$addToSet"; "$pop"; "$pull"; "$push";
   "$pushAll"; "$bit"].

(** [list.includes(k)] for an array of strings. *)
Definition includesKey (l : list string) (k : string) : bool :=
  existsb (fun x => (x =? k)%string) l.

(** The loop of [isUpdateQuery], on the keys in the order of its visits. *)
Fixpoint isUpdateLoop (keys : list string) : bool :=
  match keys with
  | [] => false
  | k :: rest =>
      if includesKey updateOperators k then true else isUpdateLoop rest
  end.

(** [isUpdateQuery(docs)] for an object [docs]: [Object.keys] answers the
    keys in enumeration order and the loop visits them from the last. *)
Definition isUpdateQuery (docs : list (string * jsval)) : bool :=
  isUpdateLoop (List.rev (map fst docs)).

(** [o[k]] for an own property of an object; [None] is [undefined]. *)
Fixpoint getProp {A : Type} (o : list (string * A)) (k : string) : option A :=
  match o with
  | [] => None
  | (k', v) :: o' => if (k' =? k)%string then Some v else getProp o' k
  end.

(** The own enumerable properties that [Object.assign] reads from a
    source: those of an object, the items of an array and the characters
    of a string under their indices, none for the other values;
    [undefined] and [null] are skipped. *)
Fixpoint indexed (i : Z) (items : list jsval) : list (string * jsval) :=
  match items with
  | [] => []
  | x :: rest => (natToString i, x) :: indexed (i + 1) rest
  end.

Fixpoint chars (s : string) : list jsval :=
  match s with
  | EmptyString => []
  | String c r => VStr (String c EmptyString) :: chars r
  end.

Definition ownEntries (v : option jsval) : list (string * jsval) :=
  match v with
  | Some (VObj props) => props
  | Some (VArr items) => indexed 0 items
  | Some (VStr s) => indexed 0 (chars s)
  | _ => []
  end.

(** [Object.assign(target, source)]: each property is set with [[Set]]. *)
Definition assign (target source : list (string * jsval))
  : list (string * jsval) :=
  fold_left (fun o kv => setProp o (fst kv) (snd kv)) source target.

(** [{ ...target, ...source }]: each property is defined anew. *)
Definition spread (target source : list (string * jsval))
  : list (string * jsval) :=
  fold_left (fun o kv => defineProp o (fst kv) (snd kv)) source target.

Definition retrieveUpdateQueryData (docs : list (string * jsval))
  : list (string * jsval) :=
  if isUpdateQuery docs then assign [] (ownEntries (getProp docs "$set"))
  else docs.

(** The constant [data] of [mergeUpdateQueryData]. *)
Definition mergedData (from to : list (string * jsval))
  : list (string * jsval) :=
  let fromD := retrieveUpdateQueryData from in
  let toD := retrieveUpdateQueryData to in
  assign (assign [] fromD) toD.

Definition mergeUpdateQueryData (from to : list (string * jsval))
  : list (string * jsval) :=
  let data := mergedData from to in
  let result := [] in
  let result := if isUpdateQuery from then spread (spread [] result) from
                else result in
  let result := if isUpdateQuery to then spread (spread [] result) to
                else result in
  defineProp (spread [] result) "$set" (VObj data).

End UpdateQuery.

(* ================================================================== *)
(** * Part II: properties *)
(* ================================================================== *)

(** ** Strings *)

Module JsStringFacts.
Import JsString.

Lemma append_nil_r (s : string) : s ++ "" = s.
Proof. induction s as [|c s IH]; simpl; [reflexivity | now rewrite IH]. Qed.

Lemma append_assoc (s t u : string) : (s ++ t) ++ u = s ++ (t ++ u).
Proof. induction s as [|c s IH]; simpl; [reflexivity | now rewrite IH]. Qed.

Lemma length_append (s t : string) :
  String.length (s ++ t) = (String.length s + String.length t)%nat.
Proof. induction s as [|c s IH]; simpl; [reflexivity | now rewrite IH]. Qed.

Lemma rev_append_spec (s acc : string) : rev_append s acc = rev s ++ acc.
Proof.
  unfold rev. revert acc.
  induction s as [|c s IH]; intros acc; simpl; [reflexivity|].
  rewrite IH, (IH (String c "")), append_assoc. reflexivity.
Qed.

Lemma rev_cons (c : ascii) (s : string) : rev (String c s) = rev s ++ String c "".
Proof. unfold rev at 1. simpl. apply rev_append_spec. Qed.

Lemma rev_app (s t : string) : rev (s ++ t) = rev t ++ rev s.
Proof.
  induction s as [|c s IH]; simpl.
  - now rewrite append_nil_r.
  - now rewrite !rev_cons, IH, append_assoc.
Qed.

Lemma rev_involutive (s : string) : rev (rev s) = s.
Proof.
  induction s as [|c s IH]; [reflexivity|].
  now rewrite rev_cons, rev_app, IH.
Qed.

Lemma prefix_head (a c : ascii) (p r : string) :
  Ascii.eqb c a = false -> String.prefix (String a p) (String c r) = false.
Proof.
  intros H. cbn [String.prefix].
  destruct (ascii_dec a c) as [->|_]; [|reflexivity].
  now rewrite Ascii.eqb_refl in H.
Qed.

End JsStringFacts.

(** ** Numbers: printing and reading back *)

Module JsNumberFacts.
Import JsString JsStringFacts JsNumber.



(** *** [allChars] *)

Lemma allChars_app (P : ascii -> bool) (s t : string) :
  allChars P (s ++ t) = (allChars P s && allChars P t)%bool.
Proof.
  induction s as [|c s IH]; simpl; [reflexivity|].
  now rewrite IH, andb_assoc.
Qed.


Lemma allChars_impl (P Q : ascii -> bool) (s : string) :
  (forall c, P c = true -> Q c = true) ->
  allChars P s = true -> allChars Q s = true.
Proof.
  intros HPQ. induction s as [|c s IH]; simpl; [reflexivity|].
  intros H. apply andb_prop in H as [Hc Hs].
  now rewrite (HPQ c Hc), IH.
Qed.





Lemma len_app (s t : string) : len (s ++ t) = len s + len t.
Proof. unfold len. rewrite length_append. lia. Qed.




(** *** White space *)



Lemma trimEnd_last (s : string) (d : ascii) :
  isWhiteSpace d = false -> trimEnd (s ++ String d "") = s ++ String d "".
Proof.
  intros Hd. unfold trimEnd. rewrite rev_app.
  change (rev (String d "") ++ rev s) with (String d (rev s)).
  cbn [trimStart]. rewrite Hd. now rewrite rev_cons, rev_involutive.
Qed.

(** A text whose first and last characters are not white space is its own
    trimmed text. *)
Lemma trim_ends (c d : ascii) (s : string) :
  isWhiteSpace c = false -> isWhiteSpace d = false ->
  trim (String c (s ++ String d "")) = String c (s ++ String d "").
Proof.
  intros Hc Hd. unfold trim. cbn [trimStart]. rewrite Hc.
  exact (trimEnd_last (String c s) d Hd).
Qed.

(** *** Zeros at the two ends *)








Lemma rev_nonempty (s : string) : s <> "" -> rev s <> "".
Proof.
  destruct s as [|c s]; [congruence|]. intros _.
  rewrite rev_cons. now destruct (rev s).
Qed.


(** *** Reading the pieces of a decimal literal *)












(** *** What [NumberToString] prints *)


(** *** Reading back what was printed *)



Lemma includes_absent (c : ascii) (p s : string) :
  allChars (fun d => negb (Ascii.eqb d c)) s = true ->
  includes (String c p) s = false.
Proof.
  induction s as [|a s IH]; [reflexivity|].
  simpl. intros H. apply andb_prop in H as [Ha Hs].
  apply negb_true_iff, Ascii.eqb_neq in Ha.
  destruct (ascii_dec c a) as [->|_]; [contradiction|].
  now apply IH.
Qed.

Lemma toLowerCase_head (c : ascii) (r : string) :
  Ascii.eqb (lowerChar c) "t" = false ->
  Ascii.eqb (lowerChar c) "f" = false ->
  (toLowerCase (String c r) =? "true")%string = false
  /\ (toLowerCase (String c r) =? "false")%string = false.
Proof. intros Ht Hf. cbn [toLowerCase String.eqb]. now rewrite Ht, Hf. Qed.


(** *** The numbers that [StringToNumber] answers are canonical *)





End JsNumberFacts.

(** ** JSON texts *)

Module JsonFacts.
Import JsString JsStringFacts JsNumber JsNumberFacts Json.

(** *** What [JSON.parse] answers for a text that opens with a brace *)

Lemma parseMembers_object (fuel : nat) :
  forall (s : string) (acc : list (string * jsval)) (v : jsval) (r : string),
    parseMembers fuel s acc = Some (v, r) -> exists props, v = VObj props.
Proof.
  induction fuel as [|fuel IH]; intros s acc v r H; [discriminate H|].
  cbn [parseMembers] in H.
  destruct (skipWs s) as [|c r0]; [discriminate H|].
  destruct (Ascii.eqb c dquote); [|discriminate H].
  destruct (parseString r0) as [[k r1]|]; [|discriminate H].
  destruct (skipWs r1) as [|c2 r2]; [discriminate H|].
  destruct (Ascii.eqb c2 ":"); [|discriminate H].
  destruct (parseValue fuel r2) as [[v3 r3]|]; [|discriminate H].
  destruct (skipWs r3) as [|c4 r4]; [discriminate H|].
  destruct (Ascii.eqb c4 ","); [now apply IH in H|].
  destruct (Ascii.eqb c4 "}"); [|discriminate H].
  injection H as <- _. now eexists.
Qed.

Lemma parse_brace (r : string) (o : jsval) :
  parse (String "{" r) = Some o -> exists props, o = VObj props.
Proof.
  unfold parse.
  replace (2 * String.length (String "{" r) + 2)%nat
    with (S (2 * String.length (String "{" r) + 1)) by lia.
  set (fuel := (2 * String.length (String "{" r) + 1)%nat).
  cbn [parseValue].
  change (skipWs (String "{" r)) with (String "{" r). cbv iota.
  change (Ascii.eqb "{" "{") with true. cbv iota.
  destruct (String.prefix "}" (skipWs r)).
  - destruct (skipWs (drop 1 (skipWs r)) =? "")%string; [|discriminate].
    intros [= <-]. now eexists.
  - destruct (parseMembers fuel (skipWs r) []) as [[v r']|] eqn:Hm;
      [|discriminate].
    destruct (skipWs r' =? "")%string; [|discriminate].
    intros [= <-]. now apply parseMembers_object in Hm.
Qed.

(** *** What [JSON.stringify] prints *)

Lemma stringify_object (props : list (string * jsval)) :
  exists body, stringify (VObj props) = Some (String "{" (body ++ "}")).
Proof. now eexists. Qed.

Lemma digit_of_nat (d : nat) :
  (d < 10)%nat -> isDigit (ascii_of_nat (48 + d)) = true.
Proof. intros H. do 10 (destruct d as [|d]; [reflexivity|]). lia. Qed.

Lemma allChars_pad (k : nat) (n : Z) : allChars isDigit (pad k n) = true.
Proof.
  revert n. induction k as [|k IH]; intros n; [reflexivity|].
  cbn [pad]. rewrite allChars_app, IH. cbn [allChars].
  rewrite digit_of_nat; [reflexivity|].
  assert (0 <= n mod 10 < 10) by (apply Z.mod_pos_bound; lia). lia.
Qed.

Lemma allChars_toISOString (t : Z) : allChars isoChar (toISOString t) = true.
Proof.
  assert (Hp : forall k n, allChars isoChar (pad k n) = true).
  { intros k n. apply (allChars_impl isDigit); [|apply allChars_pad].
    intros c Hc. unfold isoChar. now rewrite Hc. }
  unfold toISOString. destruct (civilFromDays (t / 86400000)) as [[y m] d].
  rewrite !allChars_app, !Hp.
  destruct ((0 <=? y) && (y <=? 9999))%bool.
  - now rewrite Hp.
  - rewrite allChars_app, Hp. now destruct (y <? 0).
Qed.

Lemma isoChar_char (c : ascii) :
  isoChar c = true ->
  quoteChar c = String c "" /\ Ascii.eqb c "$" = false.
Proof. intros H. ascii_cases c. Qed.

Lemma quoteChars_iso (s : string) :
  allChars isoChar s = true -> quoteChars s = s.
Proof.
  induction s as [|c s IH]; [reflexivity|].
  cbn [allChars quoteChars]. intros H. apply andb_prop in H as [Hc Hs].
  destruct (isoChar_char c Hc) as [-> _]. now rewrite IH.
Qed.

(** The JSON text of a valid date: its ISO text between double quotes. *)
Lemma stringify_date (t : Z) :
  stringify (VDate (Some t))
  = Some (String dquote (toISOString t ++ String dquote "")).
Proof.
  cbn [stringify]. unfold quote.
  now rewrite (quoteChars_iso _ (allChars_toISOString t)).
Qed.

Lemma quoted_date_no_dollar (t : Z) :
  allChars (fun d => negb (Ascii.eqb d "$"))
    (String dquote (toISOString t ++ String dquote "")) = true.
Proof.
  cbn [allChars]. rewrite allChars_app.
  change (negb (Ascii.eqb dquote "$")) with true. cbn [allChars andb].
  rewrite andb_true_r.
  apply (allChars_impl isoChar); [|apply allChars_toISOString].
  intros c Hc. now destruct (isoChar_char c Hc) as [_ ->].
Qed.

(** The JSON text of a valid date is read back as its ISO text. *)
Lemma isoChar_plain (c : ascii) :
  isoChar c = true ->
  Ascii.eqb c dquote = false /\ Ascii.eqb c backslash = false
  /\ Nat.ltb (nat_of_ascii c) 32 = false.
Proof. intros H. ascii_cases c. Qed.

Lemma parseString_iso (s r : string) :
  allChars isoChar s = true ->
  parseString (s ++ String dquote r) = Some (s, r).
Proof.
  induction s as [|c s IH]; intros H.
  - cbn [append parseString]. now rewrite Ascii.eqb_refl.
  - cbn [allChars] in H. apply andb_prop in H as [Hc Hs].
    destruct (isoChar_plain c Hc) as (Hq & Hb & Hl).
    cbn [append parseString]. now rewrite Hq, Hb, Hl, (IH Hs).
Qed.

Lemma parse_date_text (t : Z) :
  parse (String dquote (toISOString t ++ String dquote ""))
  = Some (VStr (toISOString t)).
Proof.
  unfold parse.
  set (tmp := String dquote (toISOString t ++ String dquote "")).
  replace (2 * String.length tmp + 2)%nat
    with (S (2 * String.length tmp + 1)) by lia.
  cbn [parseValue]. unfold tmp.
  change (skipWs (String dquote (toISOString t ++ String dquote "")))
    with (String dquote (toISOString t ++ String dquote "")).
  cbv iota.
  change (Ascii.eqb dquote "{") with false.
  change (Ascii.eqb dquote "[") with false.
  change (Ascii.eqb dquote dquote) with true. cbv iota.
  now rewrite (parseString_iso _ "" (allChars_toISOString t)).
Qed.

Lemma toISOString_nonempty (t : Z) : (toISOString t =? "")%string = false.
Proof.
  apply String.eqb_neq. unfold toISOString.
  destruct (civilFromDays (t / 86400000)) as [[y m] d].
  rewrite <- !append_assoc.
  match goal with |- ?x ++ "Z" <> "" => now destruct x end.
Qed.

End JsonFacts.

(** ** The pair tokenizer *)

Module TokenizerFacts.
Import JsString JsStringFacts Tokenizer.

Lemma nested_step (c : ascii) (n : Z) :
  (if includesChar kEnd c
   then (if includesChar kStart c then n + 1 else n) - 1
   else (if includesChar kStart c then n + 1 else n)) = n + depthChange c.
Proof.
  unfold depthChange.
  destruct (includesChar kStart c), (includesChar kEnd c); lia.
Qed.

Lemma scan_value_cons (c : ascii) (rest : string) (i n : Z) (r : pair) :
  scan (String c rest) i true n r
  = if ((n + depthChange c =? 0) && Ascii.eqb c ",")%bool
    then setEndIndex r (i + 1)
    else scan rest (i + 1) true (n + depthChange c) (pushValue r c).
Proof. rewrite <- nested_step. reflexivity. Qed.

Lemma scan_key_cons (c : ascii) (rest : string) (i n : Z) (r : pair) :
  scan (String c rest) i false n r
  = if includesChar kKeyAllowedCharacters c
    then scan rest (i + 1) false n (pushKey r c)
    else if Ascii.eqb c ":"
    then scan rest (i + 1) true n r
    else scan rest (i + 1) false n r.
Proof. reflexivity. Qed.

(** In the value phase, without a terminator, the scan runs to the end of
    the text and appends all of it to the value. *)
Lemma scan_value_unterminated (v : string) :
  forall (i n : Z) (r : pair),
    (forall p q, v = p ++ String "," q -> n + depth p <> 0) ->
    scan v i true n r
    = mkPair (startIndex r) (endIndex r) (key r) (value r ++ v).
Proof.
  induction v as [|c v IH]; intros i n r H.
  - simpl. rewrite append_nil_r. now destruct r.
  - rewrite scan_value_cons.
    destruct ((n + depthChange c =? 0) && Ascii.eqb c ",")%bool eqn:Hb.
    + apply andb_prop in Hb as [Hz Hc].
      apply Z.eqb_eq in Hz. apply Ascii.eqb_eq in Hc. subst c.
      exfalso. apply (H "" v); [reflexivity|].
      change (depthChange ",") with 0 in Hz. simpl. lia.
    + rewrite IH.
      * simpl. now rewrite append_assoc.
      * intros p q Hv. subst v.
        specialize (H (String c p) q eq_refl). simpl in H. lia.
Qed.

(** In the key phase the scan keeps the key characters up to the first
    colon and hands the rest over to the value phase. *)
Lemma scan_key_unterminated (s : string) :
  forall (i : Z) (r : pair),
    unterminated (afterColon s) ->
    scan s i false 0 r
    = mkPair (startIndex r) (endIndex r)
             (key r ++ keyChars (beforeColon s)) (value r ++ afterColon s).
Proof.
  induction s as [|c s IH]; intros i r H.
  - simpl. rewrite !append_nil_r. now destruct r.
  - rewrite scan_key_cons.
    destruct (Ascii.eqb_spec c ":") as [->|Hc].
    + change (includesChar kKeyAllowedCharacters ":") with false. cbv iota.
      rewrite scan_value_unterminated.
      * simpl. now rewrite append_nil_r.
      * intros p q Hv. simpl in H. now apply (H p q).
    + simpl in H. apply Ascii.eqb_neq in Hc.
      simpl beforeColon. simpl afterColon. rewrite Hc in *.
      destruct (includesChar kKeyAllowedCharacters c) eqn:Hk.
      * rewrite IH by exact H. cbn [keyChars]. rewrite Hk.
        cbn [pushKey startIndex endIndex key value]. 
        now rewrite append_assoc.
      * rewrite IH by exact H. cbn [keyChars]. now rewrite Hk.
Qed.

(** The key phase, in general: it ends at the first colon, where the value
    phase starts at depth 0. *)
Lemma scan_key (s : string) :
  forall (i : Z) (r : pair),
    scan s i false 0 r
    = scan (afterColon s) (i + len (beforeColon s) + 1) true 0
        (mkPair (startIndex r) (endIndex r)
                (key r ++ keyChars (beforeColon s)) (value r)).
Proof.
  induction s as [|c s IH]; intros i r.
  - simpl. rewrite append_nil_r. now destruct r.
  - rewrite scan_key_cons.
    destruct (Ascii.eqb_spec c ":") as [->|Hc].
    + change (includesChar kKeyAllowedCharacters ":") with false. cbv iota.
      simpl. rewrite append_nil_r. change (len "") with 0.
      replace (i + 0 + 1) with (i + 1) by lia. now destruct r.
    + apply Ascii.eqb_neq in Hc.
      simpl beforeColon. simpl afterColon. rewrite Hc.
      assert (Hi : i + 1 + len (beforeColon s) + 1
                   = i + len (String c (beforeColon s)) + 1)
        by (unfold len; simpl String.length; lia).
      destruct (includesChar kKeyAllowedCharacters c) eqn:Hk.
      * rewrite IH, Hi. cbn [keyChars]. rewrite Hk.
        cbn [pushKey startIndex endIndex key value].
        now rewrite append_assoc.
      * rewrite IH, Hi. cbn [keyChars]. now rewrite Hk.
Qed.

(** In the value phase, the first comma at depth 0 ends the pair:
    [endIndex] is one past that comma and the value is the text before
    it. *)
Lemma scan_value_terminated (p q : string) :
  forall (i n : Z) (r : pair),
    (forall p1 p2, p = p1 ++ String "," p2 -> n + depth p1 <> 0) ->
    n + depth p = 0 ->
    scan (p ++ String "," q) i true n r
    = mkPair (startIndex r) (i + len p + 1) (key r) (value r ++ p).
Proof.
  induction p as [|c p IH]; intros i n r Hfirst Hdepth.
  - simpl in Hdepth. simpl append. rewrite scan_value_cons.
    change (depthChange ",") with 0.
    replace (n + 0) with 0 by lia. simpl.
    rewrite append_nil_r. change (len "") with 0.
    replace (i + 0 + 1) with (i + 1) by lia. now destruct r.
  - simpl append. rewrite scan_value_cons.
    destruct ((n + depthChange c =? 0) && Ascii.eqb c ",")%bool eqn:Hb.
    + apply andb_prop in Hb as [Hz Hc].
      apply Z.eqb_eq in Hz. apply Ascii.eqb_eq in Hc. subst c.
      exfalso. apply (Hfirst "" p eq_refl).
      change (depthChange ",") with 0 in Hz. simpl. lia.
    + rewrite IH.
      * cbn [pushValue startIndex endIndex key value].
        rewrite append_assoc. f_equal.
        unfold len. simpl String.length. lia.
      * intros p1 p2 Hp. subst p.
        specialize (Hfirst (String c p1) p2 eq_refl). simpl in Hfirst. lia.
      * simpl in Hdepth. lia.
Qed.

(** The other case of the scan: when the text after the first colon is
    [p], a comma at depth 0 and [q], with no earlier comma of [p] at depth
    0, the pair ends one past that comma. *)
Lemma findNextPair_terminated (text : string) (start : Z) (p q : string) :
  let i := Z.max 0 start in
  let rest := drop (Z.to_nat i) text in
  afterColon rest = p ++ String "," q ->
  (forall p1 p2, p = p1 ++ String "," p2 -> depth p1 <> 0) ->
  depth p = 0 ->
  findNextPair text start
  = mkPair start (i + len (beforeColon rest) + 1 + len p + 1)
           (keyChars (beforeColon rest)) p.
Proof.
  intros i rest Hafter Hfirst Hdepth. unfold findNextPair. fold i. fold rest.
  rewrite scan_key, Hafter, scan_value_terminated; [reflexivity | | lia].
  intros p1 p2 Hp. specialize (Hfirst p1 p2 Hp). lia.
Qed.

(** C6: on ["a:1,b:{c:2,d:3},e:5,"], feeding each [endIndex] to the next
    call, [findNextPair] yields the pairs [a]/[1], [b]/[{c:2,d:3}] (the
    commas inside the braces do not end the pair) and [e]/[5], in that
    order; each pair starts where the one before ended, and the call after
    the third pair finds nothing more. *)
Theorem findNextPair_three_pairs :
  let text := "a:1,b:{c:2,d:3},e:5," in
  let p1 := findNextPair text 0 in
  let p2 := findNextPair text (endIndex p1) in
  let p3 := findNextPair text (endIndex p2) in
  let p4 := findNextPair text (endIndex p3) in
  (key p1, value p1) = ("a", "1")
  /\ (key p2, value p2) = ("b", "{c:2,d:3}")
  /\ (key p3, value p3) = ("e", "5")
  /\ startIndex p1 = 0
  /\ endIndex p1 = startIndex p2
  /\ endIndex p2 = startIndex p3
  /\ (key p4, value p4) = ("", "")
  /\ tokenize 4 text 0 = Some [p1; p2; p3].
Proof. vm_compute. repeat split; reflexivity. Qed.

(** C7: [findNextPair] is a total function; when no comma at bracket depth
    0 ends the value, whatever the text and the start index, its result
    has [endIndex] 0, the key characters read before the first colon as
    [key] and all the text after that colon as [value]. *)
Theorem findNextPair_unterminated (text : string) (start : Z) :
  let rest := drop (Z.to_nat (Z.max 0 start)) text in
  unterminated (afterColon rest) ->
  findNextPair text start
  = mkPair start 0 (keyChars (beforeColon rest)) (afterColon rest).
Proof.
  intros rest H. unfold findNextPair. fold rest.
  now rewrite scan_key_unterminated.
Qed.

Lemma findNextPair_unterminated_witness :
  unterminated "{c,d"
  /\ findNextPair "a-b:{c,d" 0 = mkPair 0 0 "ab" "{c,d".
Proof.
  assert (H : unterminated "{c,d").
  { intros p q H.
    destruct p as [|c1 p]; [discriminate H | injection H as <- H].
    destruct p as [|c2 p]; [discriminate H | injection H as <- H].
    destruct p as [|c3 p]; [vm_compute; discriminate | injection H as <- H].
    destruct p as [|c4 p]; [discriminate H | injection H as <- H].
    destruct p; discriminate H. }
  split; [exact H|].
  exact (findNextPair_unterminated "a-b:{c,d" 0 H).
Defined.

End TokenizerFacts.

(** ** The environment after the specification *)

Module ValidatorFacts.
Import JsString JsNumber Json Validator.

Lemma specDate_head (s : string) (t : Z) :
  specDate s = Some t -> startsNumeric s = true.
Proof.
  intros H.
  destruct s as [|y1 s]; [discriminate H|].
  unfold startsNumeric. destruct (isDigit y1) eqn:Hd; [reflexivity|].
  exfalso.
  do 9 (destruct s as [|? s]; [discriminate H|]).
  unfold specDate, number2 in H. rewrite Hd in H. discriminate H.
Qed.

Lemma specEnv_ok : EnvOk specEnv.
Proof.
  split; simpl.
  - intros s H. destruct (specDate s) eqn:Hs; [|discriminate H].
    now apply specDate_head with z.
  - reflexivity.
  - reflexivity.
  - reflexivity.
Qed.

End ValidatorFacts.

(** ** [normalize] *)

Module QueryFacts.
Import JsString JsStringFacts JsNumber JsNumberFacts Json JsonFacts.
Import Validator ValidatorFacts Query.

Lemma normalize_S (E : Env) (fuel : nat) (text : jsval) :
  normalize E (S fuel) text
  = (tmp <- textualForm E text ;;
     if (includes "$function" tmp || includes "$accumulator" tmp)%bool
     then Err InvalidOperator
     else
       match wrapped text with
       | Some s =>
           match parse s with
           | Some v => normalize E fuel v
           | None => Err SyntaxError
           end
       | None =>
           if (toLowerCase tmp =? "true")%string then Ok (VBool true)
           else if (toLowerCase tmp =? "false")%string then Ok (VBool false)
           else if negb (isNaN tmp) then Ok (VNum (StringToNumber tmp))
           else if isISO8601Date E tmp
           then Ok (VDate (TimeClip (Date_parse E tmp)))
           else if isArray text
           then items <- mapM (normalize E fuel) (elements text) ;;
                Ok (VArr items)
           else if (negb (isNumber text) && negb (isString text)
                    && negb (isArray text) && isJSON E text)%bool
           then
             match parse tmp with
             | None => Err SyntaxError
             | Some o =>
                 let each (k : string) (v : jsval) : result jsval :=
                   if ((k =? "dateString") || (k =? "$regex"))%string
                   then Ok (VStr (ToString E v))
                   else normalize E fuel v in
                 match o with
                 | VObj props =>
                     props' <- forEachEntry each props props ;;
                     Ok (VObj props')
                 | VArr l => items <- mapM (normalize E fuel) l ;;
                             Ok (VArr items)
                 | VStr s => if (s =? "")%string then Ok o else Err TypeError
                 | VNull | VUndefined => Err TypeError
                 | _ => Ok o
                 end
             end
           else Ok text
       end).
Proof. reflexivity. Qed.

(** The textual form of a value always exists. *)
Lemma textualForm_total (E : Env) (text : jsval) :
  exists tmp, textualForm E text = Ok tmp.
Proof. destruct text; now eexists. Qed.

(** C1: whatever the value, string or structured, when its textual form
    (the JSON text of a non-null object, the string cast otherwise)
    contains [$function] or [$accumulator], [normalize] fails with the
    invalid-operator error; the test comes first in every call, so no
    other branch can answer instead. *)
Theorem normalize_security_guard (E : Env) (fuel : nat) (text : jsval)
  (tmp : string) :
  textualForm E text = Ok tmp ->
  (includes "$function" tmp || includes "$accumulator" tmp)%bool = true ->
  normalize E (S fuel) text = Err InvalidOperator.
Proof.
  intros Htmp Hguard. rewrite normalize_S, Htmp. simpl bind.
  now rewrite Hguard.
Qed.

Lemma normalize_security_guard_witness :
  textualForm specEnv (VStr "{$function}") = Ok "{$function}"
  /\ (includes "$function" "{$function}"
      || includes "$accumulator" "{$function}")%bool = true
  /\ parse "{$function}" = None
  /\ normalize specEnv 1 (VStr "{$function}") = Err InvalidOperator.
Proof.
  split; [reflexivity|]. split; [reflexivity|]. split; [reflexivity|].
  apply (normalize_security_guard specEnv 0 (VStr "{$function}") "{$function}");
    reflexivity.
Defined.

Lemma isISO8601Date_false (E : Env) (s : string) :
  EnvOk E -> startsNumeric s = false -> isISO8601Date E s = false.
Proof.
  intros HE Hs. destruct (isISO8601Date E s) eqn:H; [|reflexivity].
  apply (isISO8601Date_head E HE) in H. congruence.
Qed.

Lemma normalize_empty (E : Env) (fuel : nat) :
  normalize E (S fuel) (VStr "") = Ok (VNum zero).
Proof. reflexivity. Qed.

(** A string that no rule recognizes is answered as it is. *)
Lemma normalize_plain_string (E : Env) (fuel : nat) (s : string) :
  EnvOk E ->
  (includes "$function" s || includes "$accumulator" s)%bool = false ->
  (startsWith "{" s && endsWith "}" s)%bool = false ->
  (toLowerCase s =? "true")%string = false ->
  (toLowerCase s =? "false")%string = false ->
  isNaN s = true ->
  startsNumeric s = false ->
  normalize E (S fuel) (VStr s) = Ok (VStr s).
Proof.
  intros HE Hg Hw Ht Hf Hn Hd. rewrite normalize_S.
  unfold textualForm, wrapped. simpl.
  now rewrite Hg, Hw, Ht, Hf, Hn, (isISO8601Date_false E s HE Hd).
Qed.

(** An object whose JSON text no earlier rule recognizes is rebuilt from
    the entries of that text. *)
Lemma normalize_object (E : Env) (fuel : nat) (props o : list (string * jsval))
  (tmp : string) :
  EnvOk E ->
  stringify (VObj props) = Some tmp ->
  (includes "$function" tmp || includes "$accumulator" tmp)%bool = false ->
  (toLowerCase tmp =? "true")%string = false ->
  (toLowerCase tmp =? "false")%string = false ->
  isNaN tmp = true ->
  startsNumeric tmp = false ->
  parse tmp = Some (VObj o) ->
  normalize E (S fuel) (VObj props)
  = (props' <- forEachEntry
                 (fun k v => if ((k =? "dateString") || (k =? "$regex"))%string
                             then Ok (VStr (ToString E v))
                             else normalize E fuel v) o o ;;
     Ok (VObj props')).
Proof.
  intros HE Hs Hg Ht Hf Hn Hd Hp. rewrite normalize_S.
  unfold textualForm, wrapped.
  change (isObject (VObj props) && negb (isNull (VObj props)))%bool with true.
  cbv iota. rewrite Hs. unfold bind at 1.
  rewrite Hg, Ht, Hf, Hn, (isISO8601Date_false E tmp HE Hd).
  change (isArray (VObj props)) with false.
  change (isNumber (VObj props)) with false.
  change (isString (VObj props)) with false.
  rewrite (isJSON_object E HE). simpl negb. simpl andb. cbv iota.
  now rewrite Hp.
Qed.

(** The examples of the specification, on the host of [specEnv]. *)
Example normalize_examples :
  normalize specEnv 1 (VStr "true") = Ok (VBool true)
  /\ normalize specEnv 1 (VStr "FALSE") = Ok (VBool false)
  /\ normalize specEnv 1 (VStr "42") = Ok (VNum (ofZ 42))
  /\ normalize specEnv 1 (VStr "2023-01-01T00:00:00Z")
     = Ok (VDate (Some 1672531200000))
  /\ normalize specEnv 1 (VStr "hello") = Ok (VStr "hello").
Proof. vm_compute. repeat split; reflexivity. Qed.

(** *** Normalizing a normalized value *)

(** A text that neither is blank at its ends nor begins like a numeric
    literal is not a number. *)
Lemma StringToNumber_head_NaN (c : ascii) (r : string) :
  trim (String c r) = String c r ->
  isDigit c = false -> Ascii.eqb c "+" = false -> Ascii.eqb c "-" = false ->
  Ascii.eqb c "." = false -> Ascii.eqb c "I" = false ->
  Ascii.eqb c "0" = false ->
  StringToNumber (String c r) = NaN.
Proof.
  intros Ht Hd Hp Hm Hdot HI H0. unfold StringToNumber. rewrite Ht.
  assert (Hdec : parseDecimal (String c r) = NaN).
  { unfold parseDecimal. rewrite Hp, Hm. unfold parseUnsignedDecimal.
    cbn [String.eqb spanDigits]. rewrite HI, Hd. cbn [andb].
    rewrite Hdot. reflexivity. }
  destruct r as [|x r]; [exact Hdec|]. rewrite H0. exact Hdec.
Qed.




(** What the date case rests on: were [isJSON] to accept a date, the
    second normalization of a valid date would read its JSON text back
    as a string and fail on the assignment to a character of it. *)
Lemma normalize_date_accepted (E : Env) (fuel : nat) (t : Z) :
  (forall s, isISO8601Date E s = true -> startsNumeric s = true) ->
  isJSON E (VDate (Some t)) = true ->
  normalize E (S fuel) (VDate (Some t)) = Err TypeError.
Proof.
  intros Hiso Hjson. rewrite normalize_S. unfold textualForm.
  change (isObject (VDate (Some t)) && negb (isNull (VDate (Some t))))%bool
    with true.
  change (wrapped (VDate (Some t))) with (@None string).
  change (isArray (VDate (Some t))) with false.
  change (isNumber (VDate (Some t))) with false.
  change (isString (VDate (Some t))) with false.
  rewrite Hjson, stringify_date. cbn [bind].
  set (tmp := String dquote (toISOString t ++ String dquote "")).
  rewrite !(includes_absent "$" _ tmp (quoted_date_no_dollar t)).
  destruct (toLowerCase_head dquote (toISOString t ++ String dquote "")
              eq_refl eq_refl) as [Ht Hf].
  fold tmp in Ht, Hf. rewrite Ht, Hf.
  assert (Hn : isNaN tmp = true).
  { unfold isNaN, tmp.
    rewrite StringToNumber_head_NaN; try reflexivity.
    now apply trim_ends. }
  rewrite Hn. cbn [negb orb andb].
  assert (Hd : isISO8601Date E tmp = false).
  { destruct (isISO8601Date E tmp) eqn:H; [|reflexivity].
    apply Hiso in H. discriminate H. }
  rewrite Hd. unfold tmp. rewrite parse_date_text.
  now rewrite toISOString_nonempty.
Qed.

(** The normalization of an object never answers a value of a terminal
    type. *)
Lemma normalize_object_nonterminal (E : Env) (fuel : nat)
  (props : list (string * jsval)) (v : jsval) :
  EnvOk E -> normalize E fuel (VObj props) = Ok v -> terminal v = false.
Proof.
  intros HE H. destruct fuel as [|fuel]; [discriminate H|].
  rewrite normalize_S in H. unfold textualForm in H.
  change (isObject (VObj props) && negb (isNull (VObj props)))%bool
    with true in H.
  change (wrapped (VObj props)) with (@None string) in H.
  change (isArray (VObj props)) with false in H.
  change (isNumber (VObj props)) with false in H.
  change (isString (VObj props)) with false in H.
  rewrite (isJSON_object E HE) in H.
  destruct (stringify_object props) as [body Hs]. rewrite Hs in H.
  cbn [bind negb andb] in H.
  set (tmp := String "{" (body ++ "}")) in *.
  destruct (includes "$function" tmp || includes "$accumulator" tmp)%bool;
    [discriminate H|].
  destruct (toLowerCase_head "{" (body ++ "}") eq_refl eq_refl) as [Ht Hf].
  fold tmp in Ht, Hf. rewrite Ht, Hf in H.
  assert (Hn : isNaN tmp = true).
  { unfold isNaN, tmp.
    rewrite StringToNumber_head_NaN; try reflexivity.
    now apply trim_ends. }
  rewrite Hn in H. cbn [negb] in H.
  rewrite (isISO8601Date_false E tmp HE eq_refl) in H.
  destruct (parse tmp) as [o|] eqn:Hp; [|discriminate H].
  destruct (parse_brace _ _ Hp) as [props' ->].
  destruct (forEachEntry _ props' props') as [props''|e]; [|discriminate H].
  now injection H as <-.
Qed.

(** A string that is not wrapped in braces always has an answer, of a
    terminal type, with any fuel. *)
Lemma normalize_string_total (E : Env) (fuel : nat) (s : string) :
  (includes "$function" s || includes "$accumulator" s)%bool = false ->
  wrapped (VStr s) = None ->
  exists v, normalize E (S fuel) (VStr s) = Ok v /\ terminal v = true.
Proof.
  intros Hg Hw. rewrite normalize_S.
  change (textualForm E (VStr s)) with (Ok s : result string).
  cbn [bind]. rewrite Hg, Hw.
  destruct (toLowerCase s =? "true")%string; [now eexists|].
  destruct (toLowerCase s =? "false")%string; [now eexists|].
  destruct (negb (isNaN s)); [now eexists|].
  destruct (isISO8601Date E s); now eexists.
Qed.

Lemma startsWith_brace (s : string) :
  startsWith "{" s = true -> exists r, s = String "{" r.
Proof.
  destruct s as [|c r]; [discriminate|].
  unfold startsWith. cbn [String.prefix].
  destruct (ascii_dec "{" c) as [<-|_]; [|discriminate]. now exists r.
Qed.



(** C2, as the code has it: the empty string passes the numeric rule
    ([isNaN('')] is false, [Number('')] is 0), so [normalize] answers the
    number 0 for it. *)
Theorem normalize_empty_string (E : Env) (fuel : nat) :
  isNaN "" = false
  /\ normalize E (S fuel) (VStr "") = Ok (VNum zero).
Proof. split; [reflexivity | apply normalize_empty]. Qed.

(** C2, as the claim has it, fails: no run of [normalize] on the empty
    string answers the empty string. *)
Lemma normalize_empty_string_changed :
  ~ exists fuel : nat, normalize specEnv fuel (VStr "") = Ok (VStr "").
Proof.
  intros [fuel H]. destruct fuel as [|fuel]; [discriminate H|].
  rewrite normalize_empty in H. discriminate H.
Qed.

End QueryFacts.

(** ** The pipeline compiler *)

Module ControllerFacts.
Import JsString JsStringFacts JsNumber Json Validator ValidatorFacts Query.
Import Tokenizer TokenizerFacts AggregateBuilder Controller QueryFacts.

Section Loops.
Variable E : Env.
Variable this : Controller.

Lemma preLoop_S (n fuel : nat) (filter : string) (i : Z) (arr : list jsval) :
  preLoop E this n (S fuel) filter i arr
  = if i <=? len filter then
      let p := findNextPair filter i in
      if ((key p =? "") && (value p =? ""))%string%bool then Ok arr
      else
        arr' <- (if preShouldAdd (postMatchKeywords this) (key p) true
                 then v <- normalize E n (VStr (value p)) ;;
                      Ok (arr ++ [VObj [(key p, v)]])%list
                 else Ok arr) ;;
        preLoop E this n fuel filter (endIndex p) arr'
    else Ok arr.
Proof.
  simpl. now replace (endIndex (findNextPair filter i) - 1 + 1)
    with (endIndex (findNextPair filter i)) by lia.
Qed.

Lemma postLoop_S (n fuel : nat) (filter : string) (i : Z) (arr : list jsval) :
  postLoop E this n (S fuel) filter i arr
  = if i <=? len filter then
      let p := findNextPair filter i in
      if ((key p =? "") && (value p =? ""))%string%bool then Ok arr
      else
        arr' <- (if postShouldAdd (postMatchKeywords this) (key p) false
                 then v <- normalize E n (VStr (value p)) ;;
                      Ok (arr ++ [VObj [(key p, v)]])%list
                 else Ok arr) ;;
        postLoop E this n fuel filter (endIndex p) arr'
    else Ok arr.
Proof.
  simpl. now replace (endIndex (findNextPair filter i) - 1 + 1)
    with (endIndex (findNextPair filter i)) by lia.
Qed.

Lemma preShouldAdd_false (keywords : list string) (key : string) :
  preShouldAdd keywords key false = false.
Proof. now destruct keywords. Qed.

Lemma postShouldAdd_true (keywords : list string) (key : string) :
  postShouldAdd keywords key true = true.
Proof. now destruct keywords. Qed.

(** The two keyword loops decide the same question with opposite answers. *)
Lemma preShouldAdd_spec (keywords : list string) (key : string) :
  preShouldAdd keywords key true
  = negb (existsb (fun kw => includes kw key) keywords).
Proof.
  induction keywords as [|kw rest IH]; [reflexivity|].
  simpl. destruct (includes kw key); simpl.
  - apply preShouldAdd_false.
  - exact IH.
Qed.

Lemma postShouldAdd_spec (keywords : list string) (key : string) :
  postShouldAdd keywords key false
  = existsb (fun kw => includes kw key) keywords.
Proof.
  induction keywords as [|kw rest IH]; [reflexivity|].
  simpl. destruct (includes kw key); simpl.
  - apply postShouldAdd_true.
  - exact IH.
Qed.

Lemma tokenize_S (fuel : nat) (filter : string) (i : Z) :
  tokenize (S fuel) filter i
  = if i <=? len filter then
      let p := findNextPair filter i in
      if ((key p =? "") && (value p =? ""))%string%bool then Some []
      else option_map (cons p) (tokenize fuel filter (endIndex p))
    else Some [].
Proof. reflexivity. Qed.

(** What a run of one of the two loops pushes: the conditions of the
    pairs of its class, in the order of the text. *)
Lemma loop_conditions
  (loop : nat -> nat -> string -> Z -> list jsval -> result (list jsval))
  (class : pair -> bool) (n : nat) (filter : string) :
  (forall fuel i arr,
     loop n (S fuel) filter i arr
     = if i <=? len filter then
         let p := findNextPair filter i in
         if ((key p =? "") && (value p =? ""))%string%bool then Ok arr
         else
           arr' <- (if class p
                    then v <- normalize E n (VStr (value p)) ;;
                         Ok (arr ++ [VObj [(key p, v)]])%list
                    else Ok arr) ;;
           loop n fuel filter (endIndex p) arr'
       else Ok arr) ->
  (forall i arr, loop n O filter i arr = Err OutOfFuel) ->
  forall fuel i arr arr',
    loop n fuel filter i arr = Ok arr' ->
    exists pairs cs,
      tokenize fuel filter i = Some pairs
      /\ arr' = (arr ++ cs)%list
      /\ Forall2 (conditionOf E n) (List.filter class pairs) cs.
Proof.
  intros HS HO fuel.
  induction fuel as [|fuel IH]; intros i arr arr' H.
  - rewrite HO in H. discriminate H.
  - rewrite HS in H. rewrite tokenize_S.
    destruct (i <=? len filter).
    + cbv zeta in *. set (p := findNextPair filter i) in *.
      destruct ((key p =? "") && (value p =? ""))%string%bool.
      * injection H as <-. exists [], []. rewrite app_nil_r.
        repeat split. constructor.
      * destruct (class p) eqn:Hc.
        -- destruct (normalize E n (VStr (value p))) as [v|e] eqn:Hv;
             [|discriminate H].
           simpl in H. apply IH in H as (pairs & cs & Ht & -> & Hf).
           exists (p :: pairs), (VObj [(key p, v)] :: cs).
           rewrite Ht. simpl. rewrite Hc, <- app_assoc.
           repeat split. constructor; [|exact Hf]. now exists v.
        -- simpl in H. apply IH in H as (pairs & cs & Ht & -> & Hf).
           exists (p :: pairs), cs. rewrite Ht. simpl. rewrite Hc.
           now repeat split.
    + injection H as <-. exists [], []. rewrite app_nil_r.
      repeat split. constructor.
Qed.

Lemma preLoop_conditions (n fuel : nat) (filter : string) (i : Z)
  (arr arr' : list jsval) :
  preLoop E this n fuel filter i arr = Ok arr' ->
  exists pairs cs,
    tokenize fuel filter i = Some pairs
    /\ arr' = (arr ++ cs)%list
    /\ Forall2 (conditionOf E n) (List.filter (preClass this) pairs) cs.
Proof.
  apply (loop_conditions (preLoop E this)); [|reflexivity].
  intros fuel' i' arr0. rewrite preLoop_S.
  unfold preClass, hasPostKeyword. now rewrite preShouldAdd_spec.
Qed.

Lemma postLoop_conditions (n fuel : nat) (filter : string) (i : Z)
  (arr arr' : list jsval) :
  postLoop E this n fuel filter i arr = Ok arr' ->
  exists pairs cs,
    tokenize fuel filter i = Some pairs
    /\ arr' = (arr ++ cs)%list
    /\ Forall2 (conditionOf E n) (List.filter (postClass this) pairs) cs.
Proof.
  apply (loop_conditions (postLoop E this)); [|reflexivity].
  intros fuel' i' arr0. rewrite postLoop_S.
  unfold postClass, hasPostKeyword. now rewrite postShouldAdd_spec.
Qed.


End Loops.

(** *** The classifier *)

Lemma computePreQuery_filter (E : Env) (this : Controller) (fuel : nat)
  (filter : string) :
  computePreQuery E this fuel VUndefined (VStr filter)
  = (arr <- preLoop E this fuel fuel (terminated filter) 0 [] ;;
     Ok [Match (matchOpt arr)]).
Proof. reflexivity. Qed.



(** *** The first stage *)

(** A filter text without a colon has no pair that ends: the scan answers
    [endIndex] 0 with a key, the loop starts over from index 0, and
    [computePreQuery] never returns. *)
Lemma preLoop_no_colon (E : Env) (this : Controller) (n fuel : nat)
  (arr : list jsval) :
  preLoop E this n fuel "abc," 0 arr = Err OutOfFuel.
Proof.
  revert arr. induction fuel as [|fuel IH]; intros arr; [reflexivity|].
  rewrite preLoop_S.
  change (findNextPair "abc," 0) with (mkPair 0 0 "abc" "").
  change (0 <=? len "abc,") with true. cbv zeta iota.
  cbn [key value endIndex].
  change (("abc" =? "") && ("" =? ""))%string%bool with false. cbv iota.
  destruct (preShouldAdd (postMatchKeywords this) "abc" true).
  - destruct n as [|n]; [reflexivity|].
    rewrite normalize_empty. simpl. apply IH.
  - simpl. apply IH.
Qed.

Lemma computePreQuery_no_colon (E : Env) (this : Controller) (fuel : nat) :
  computePreQuery E this fuel VUndefined (VStr "abc") = Err OutOfFuel.
Proof.
  rewrite computePreQuery_filter.
  change (terminated "abc") with "abc,". now rewrite preLoop_no_colon.
Qed.




(** *** The end-to-end example *)

Lemma normalize_regexBob (E : Env) (fuel : nat) :
  EnvOk E -> normalize E (S (S fuel)) regexBob = Ok regexBob.
Proof.
  intros HE. unfold regexBob.
  rewrite (normalize_object E (S fuel) _
             [("$regex", VStr "bob"); ("$options", VStr "i")] regexBobText HE);
    try reflexivity.
  cbn [forEachEntry].
  change (("$regex" =? "dateString") || ("$regex" =? "$regex"))%string%bool
    with true.
  change (("$options" =? "dateString") || ("$options" =? "$regex"))%string%bool
    with false.
  cbv iota. unfold bind at 1.
  rewrite (normalize_plain_string E fuel "i" HE) by reflexivity.
  reflexivity.
Qed.

Lemma normalize_bob (E : Env) (fuel : nat) :
  EnvOk E -> normalize E (S fuel) (VStr "bob") = Ok (VStr "bob").
Proof. intros HE. now apply normalize_plain_string. Qed.

(** The search term of the example, as the pre-match stage embeds it. *)
Lemma normalize_term (E : Env) (auto : bool) (fuel : nat) :
  EnvOk E ->
  normalize E (S (S fuel))
    (if auto then transformRegExpSearch (VStr "bob") else VStr "bob")
  = Ok (if auto then regexBob else VStr "bob").
Proof.
  intros HE. destruct auto.
  - now apply normalize_regexBob.
  - now apply normalize_bob.
Qed.

Lemma preLoop_status_active (E : Env) (this : Controller) (n fuel : nat)
  (arr : list jsval) :
  EnvOk E ->
  postMatchKeywords this = [] ->
  preLoop E this (S n) (S (S fuel)) "status:active," 0 arr
  = Ok (arr ++ [VObj [("status", VStr "active")]])%list.
Proof.
  intros HE Hk. rewrite preLoop_S.
  change (findNextPair "status:active," 0) with (mkPair 0 14 "status" "active").
  rewrite Hk. cbv zeta. cbn [key value endIndex preShouldAdd].
  change (0 <=? len "status:active,") with true.
  change (("status" =? "") && ("active" =? ""))%string%bool with false.
  cbv iota.
  rewrite (normalize_plain_string E n "active" HE) by reflexivity.
  unfold bind. rewrite preLoop_S.
  change (14 <=? len "status:active,") with true.
  change (findNextPair "status:active," 14) with (mkPair 14 0 "" "").
  reflexivity.
Qed.

Lemma postLoop_status_active (E : Env) (this : Controller) (n fuel : nat) :
  postMatchKeywords this = [] ->
  postLoop E this n (S (S fuel)) "status:active," 0 [] = Ok [].
Proof.
  intros Hk. rewrite postLoop_S.
  change (findNextPair "status:active," 0) with (mkPair 0 14 "status" "active").
  rewrite Hk. cbv zeta. cbn [key value endIndex postShouldAdd].
  change (0 <=? len "status:active,") with true.
  change (("status" =? "") && ("active" =? ""))%string%bool with false.
  cbv iota. unfold bind. rewrite postLoop_S.
  change (14 <=? len "status:active,") with true.
  change (findNextPair "status:active," 14) with (mkPair 14 0 "" "").
  reflexivity.
Qed.

Lemma computeSort_createdAt (E : Env) :
  EnvOk E ->
  computeSort E (Some "-createdAt") = Some [Sort [("createdAt", -1)]].
Proof.
  intros HE. unfold computeSort.
  change (split "," "-createdAt") with ["-createdAt"].
  unfold fold_left, sortTerm.
  change (trim (replace _ "" "-createdAt")) with "createdAt".
  rewrite (isExist_string E HE) by reflexivity.
  reflexivity.
Qed.

(** What the code compiles for the example, whatever the setting of
    [autoRegExpSearch] and the stages of the caller. *)
Lemma computePipeline_bob (E : Env) (auto : bool) (transform : AggregateBuilder)
  (fuel : nat) :
  EnvOk E ->
  computePipeline E (mkController auto ["name"; "email"] [] transform)
    (S (S fuel)) (VStr "bob") (VStr "status:active,") (Some "-createdAt")
    (Some 1) (Some 5)
  = Ok ([Match (VObj [("$and",
           VArr [VObj [("$or",
                   VArr [VObj [("name", if auto then regexBob else VStr "bob")];
                         VObj [("email", if auto then regexBob else VStr "bob")]])];
                 VObj [("status", VStr "active")]])])]
        ++ transform
        ++ [Sort [("createdAt", -1)]; Limit 5; Skip 0])%list.
Proof.
  intros HE. unfold computePipeline, computePreQuery, computePostQuery.
  cbn [autoRegExpSearch searchFields postMatchKeywords buildAggregateBuilder].
  rewrite (isExist_string E HE) by reflexivity.
  change (terminated "status:active,") with "status:active,".
  cbn [isString isObject orb andb negb mapM].
  change (negb ("bob" =? "")%string) with true.
  change (0 <? Z.of_nat (List.length ["name"; "email"])) with true.
  cbv iota.
  rewrite (normalize_term E auto fuel HE). cbn [bind andb].
  rewrite preLoop_status_active by (exact HE || reflexivity).
  rewrite postLoop_status_active by reflexivity.
  rewrite (computeSort_createdAt E HE).
  change (computeOption (Some 1) (Some 5)) with (Some [Limit 5; Skip 0]).
  unfold bind, concatIf, concat, append, new, matchOpt. cbn [app].
  now rewrite <- !app_assoc.
Qed.

(** C3, as the code has it, on a host that meets [EnvOk]: for the search
    ["bob"] over the fields [name] and [email], the filter
    ["status:active,"], the sort ["-createdAt"], page 1 of size 5 and no
    post-keyword, the compiled stages are the
    pre-match stage (the OR of the two field conditions on the search term,
    ANDed with [status = "active"]), the stages of the caller, the sort by
    [createdAt] descending, then the limit 5 and after it the skip 0;
    there is no post-match stage. *)
Theorem computePipeline_end_to_end (E : Env) (auto : bool)
  (transform : AggregateBuilder) (fuel : nat) :
  EnvOk E ->
  let term := if auto then regexBob else VStr "bob" in
  computePipeline E (mkController auto ["name"; "email"] [] transform)
    (S (S fuel)) (VStr "bob") (VStr "status:active,") (Some "-createdAt")
    (Some 1) (Some 5)
  = Ok ([Match (VObj [("$and",
           VArr [VObj [("$or", VArr [VObj [("name", term)];
                                     VObj [("email", term)]])];
                 VObj [("status", VStr "active")]])])]
        ++ transform
        ++ [Sort [("createdAt", -1)]; Limit 5; Skip 0])%list.
Proof. intros HE term. now apply computePipeline_bob. Qed.

Lemma computePipeline_end_to_end_witness :
  EnvOk specEnv
  /\ computePipeline specEnv
       (mkController true ["name"; "email"] [] [Stage (VStr "lookup")])
       2 (VStr "bob") (VStr "status:active,") (Some "-createdAt")
       (Some 1) (Some 5)
     = Ok [Match (VObj [("$and",
             VArr [VObj [("$or", VArr [VObj [("name", regexBob)];
                                       VObj [("email", regexBob)]])];
                   VObj [("status", VStr "active")]])]);
           Stage (VStr "lookup");
           Sort [("createdAt", -1)]; Limit 5; Skip 0].
Proof.
  split; [exact specEnv_ok|].
  exact (computePipeline_end_to_end specEnv true [Stage (VStr "lookup")] 0
           specEnv_ok).
Defined.

(** C3, as the claim has it, fails: whatever the pre-match stage, the
    compiled pipeline is never the sequence that ends with the skip stage
    followed by the limit stage. *)
Lemma computePipeline_not_skip_then_limit :
  ~ exists (fuel : nat) (m : stage),
      computePipeline specEnv
        (mkController true ["name"; "email"] [] [Stage (VStr "lookup")])
        fuel (VStr "bob") (VStr "status:active,") (Some "-createdAt")
        (Some 1) (Some 5)
      = Ok [m; Stage (VStr "lookup"); Sort [("createdAt", -1)];
            Skip 0; Limit 5].
Proof.
  intros (fuel & m & H).
  destruct fuel as [|[|fuel]]; [discriminate H | discriminate H |].
  rewrite (computePipeline_bob specEnv true _ fuel specEnv_ok) in H.
  discriminate H.
Qed.

(** C8: [computeOption(2, 10)] skips 10 and limits to 20; page 0 is
    treated as page 1: [computeOption(0, 10)] skips 0 and limits to 10;
    in general the skip is [(page - 1) * pageSize] for a positive page and
    0 otherwise, and the limit is [pageSize] plus the skip; without a page
    or without a page size the answer is [false]. *)
Theorem computeOption_pages :
  computeOption (Some 2) (Some 10) = Some [Limit 20; Skip 10]
  /\ computeOption (Some 0) (Some 10) = Some [Limit 10; Skip 0]
  /\ (forall page pageSize : Z,
        computeOption (Some page) (Some pageSize)
        = Some [Limit (pageSize + Z.max 0 (page - 1) * pageSize);
                Skip (Z.max 0 (page - 1) * pageSize)])
  /\ (forall pageSize, computeOption None pageSize = None)
  /\ (forall page, computeOption page None = None).
Proof.
  split; [reflexivity|]. split; [reflexivity|]. split; [|split].
  - intros page pageSize. unfold computeOption.
    destruct (0 <? page) eqn:Hp.
    + apply Z.ltb_lt in Hp. now rewrite Z.max_r by lia.
    + apply Z.ltb_ge in Hp. now rewrite Z.max_l by lia.
  - reflexivity.
  - now intros [page|].
Qed.

(** *** The sort compiler *)

Lemma replace_absent (p r s : string) :
  includes p s = false -> replace p r s = s.
Proof.
  induction s as [|c s IH]; intros H.
  - cbn [includes] in H. rewrite orb_false_r in H.
    cbn [replace]. now rewrite H.
  - cbn [includes] in H. apply orb_false_iff in H as [Hp Hs].
    cbn [replace]. now rewrite Hp, (IH Hs).
Qed.

Lemma replace_head (c : ascii) (r k : string) :
  replace (String c "") r (String c k) = r ++ k.
Proof.
  cbn [replace String.prefix String.length drop].
  destruct (ascii_dec c c) as [_|Hc]; [|contradiction].
  now destruct k.
Qed.

Lemma startsWith_head (c : ascii) (k : string) :
  startsWith (String c "") (String c k) = true.
Proof.
  unfold startsWith. cbn [String.prefix].
  destruct (ascii_dec c c) as [_|Hc]; [|contradiction].
  now destruct k.
Qed.

(** A key that is new, is not an array index and is not [__proto__] comes
    last in the ordering. *)
Lemma setProp_new (A : Type) (o : list (string * A)) (k : string) (v : A) :
  hasProp o k = false -> arrayIndex k = None -> (k =? "__proto__")%string = false ->
  setProp o k v = (o ++ [(k, v)])%list.
Proof.
  intros Hh Hi Hp. unfold setProp, defineProp. now rewrite Hh, Hi, Hp.
Qed.

(** A key that is present keeps its place. *)
Lemma setProp_present (A : Type) (o : list (string * A)) (k : string) (v : A) :
  hasProp o k = true -> setProp o k v = replaceProp o k v.
Proof. intros Hh. unfold setProp, defineProp. now rewrite Hh. Qed.

(** A leading [-] is removed and orders the field descending. *)
Lemma sortTerm_descending (E : Env) (opt : list (string * Z)) (k : string) :
  EnvOk E -> trim k = k -> k <> "" ->
  sortTerm E opt (String "-" k) = setProp opt k (-1).
Proof.
  intros HE Ht Hk. unfold sortTerm.
  rewrite startsWith_head, replace_head. cbn [String.append].
  rewrite Ht, (isExist_string E HE k Ht).
  apply String.eqb_neq in Hk. now rewrite Hk.
Qed.

(** A leading [+] is removed and orders the field ascending. *)
Lemma sortTerm_plus (E : Env) (opt : list (string * Z)) (k : string) :
  EnvOk E -> trim k = k -> k <> "" ->
  sortTerm E opt (String "+" k) = setProp opt k 1.
Proof.
  intros HE Ht Hk. unfold sortTerm.
  change (startsWith "-" (String "+" k)) with false. cbv iota.
  rewrite replace_head. cbn [String.append].
  rewrite Ht, (isExist_string E HE k Ht).
  apply String.eqb_neq in Hk. now rewrite Hk.
Qed.

(** A field without a sign is ordered ascending. *)
Lemma sortTerm_ascending (E : Env) (opt : list (string * Z)) (k : string) :
  EnvOk E -> startsWith "-" k = false -> includes "+" k = false ->
  trim k = k -> k <> "" ->
  sortTerm E opt k = setProp opt k 1.
Proof.
  intros HE Hm Hp Ht Hk. unfold sortTerm. rewrite Hm.
  rewrite (replace_absent "+" "" k Hp), Ht, (isExist_string E HE k Ht).
  apply String.eqb_neq in Hk. now rewrite Hk.
Qed.

(** A blank key is skipped. *)
Lemma sortTerm_blank (E : Env) (opt : list (string * Z)) (o : string) :
  EnvOk E ->
  trim (replace (if startsWith "-" o then "-" else "+") "" o) = "" ->
  sortTerm E opt o = opt.
Proof.
  intros HE Hb. unfold sortTerm. rewrite Hb.
  now rewrite (isExist_string E HE "" eq_refl).
Qed.

(** C9: on a host that meets [EnvOk], [computeSort("name,-age")] builds the
    ordering [{name: 1, age: -1}] with its keys in that order, the minus
    sign read as descending and removed; [computeSort(undefined)] answers
    [false]. *)
Theorem computeSort_name_age (E : Env) :
  EnvOk E ->
  computeSort E (Some "name,-age") = Some [Sort [("name", 1); ("age", -1)]]
  /\ computeSort E None = None.
Proof.
  intros HE. split; [|reflexivity].
  unfold computeSort. change (split "," "name,-age") with ["name"; "-age"].
  unfold fold_left, sortTerm.
  change (trim (replace _ "" "name")) with "name".
  change (trim (replace _ "" "-age")) with "age".
  rewrite !(isExist_string E HE) by reflexivity.
  reflexivity.
Qed.

Lemma computeSort_name_age_witness :
  EnvOk specEnv
  /\ computeSort specEnv (Some "name,-age")
     = Some [Sort [("name", 1); ("age", -1)]]
  /\ computeSort specEnv None = None.
Proof.
  split; [exact specEnv_ok|].
  exact (computeSort_name_age specEnv specEnv_ok).
Defined.

End ControllerFacts.

(** ** More on the pair tokenizer *)

Module TokenizerLaws.
Import JsString JsStringFacts JsNumberFacts Tokenizer TokenizerFacts.

Lemma scan_nil (i : Z) (foundKey : bool) (n : Z) (r : pair) :
  scan "" i foundKey n r = r.
Proof. reflexivity. Qed.

(** The scan never touches [startIndex]. *)
Lemma scan_startIndex (chars : string) :
  forall (i : Z) (foundKey : bool) (n : Z) (r : pair),
    startIndex (scan chars i foundKey n r) = startIndex r.
Proof.
  induction chars as [|c chars IH]; intros i foundKey n r; [reflexivity|].
  destruct foundKey.
  - rewrite scan_value_cons.
    destruct ((n + depthChange c =? 0) && Ascii.eqb c ",")%bool;
      [reflexivity | now rewrite IH].
  - rewrite scan_key_cons.
    destruct (includesChar kKeyAllowedCharacters c); [now rewrite IH|].
    destruct (Ascii.eqb c ":"); now rewrite IH.
Qed.

(** Where the scan sets [endIndex]: one past a comma of the text. *)
Lemma scan_endIndex (chars : string) :
  forall (i : Z) (foundKey : bool) (n : Z) (r : pair),
    endIndex (scan chars i foundKey n r) = endIndex r
    \/ (i < endIndex (scan chars i foundKey n r) <= i + len chars
        /\ String.get (Z.to_nat (endIndex (scan chars i foundKey n r) - 1 - i))
             chars = Some ","%char).
Proof.
  induction chars as [|c chars IH]; intros i foundKey n r; [now left|].
  assert (Hlen : len (String c chars) = len chars + 1 /\ 0 <= len chars)
    by (unfold len; simpl String.length; lia).
  assert (Hstep : forall fk' n' r',
            endIndex r' = endIndex r ->
            endIndex (scan chars (i + 1) fk' n' r') = endIndex r
            \/ (i < endIndex (scan chars (i + 1) fk' n' r')
                    <= i + len (String c chars)
                /\ String.get
                     (Z.to_nat (endIndex (scan chars (i + 1) fk' n' r') - 1 - i))
                     (String c chars) = Some ","%char)).
  { intros fk' n' r' Hr'.
    destruct (IH (i + 1) fk' n' r') as [He|[Hb Hg]]; [left; congruence|].
    right. split; [lia|].
    replace (Z.to_nat (endIndex (scan chars (i + 1) fk' n' r') - 1 - i))
      with (S (Z.to_nat (endIndex (scan chars (i + 1) fk' n' r') - 1 - (i + 1))))
      by lia.
    exact Hg. }
  destruct foundKey.
  - rewrite scan_value_cons.
    destruct ((n + depthChange c =? 0) && Ascii.eqb c ",")%bool eqn:Hb.
    + right. apply andb_prop in Hb as [_ Hc]. apply Ascii.eqb_eq in Hc.
      subst c. cbn [setEndIndex endIndex]. split; [lia|].
      now replace (Z.to_nat (i + 1 - 1 - i)) with O by lia.
    + now apply Hstep.
  - rewrite scan_key_cons.
    destruct (includesChar kKeyAllowedCharacters c); [now apply Hstep|].
    destruct (Ascii.eqb c ":"); now apply Hstep.
Qed.

Lemma length_drop (n : nat) (s : string) :
  String.length (drop n s) = (String.length s - n)%nat.
Proof.
  revert s. induction n as [|n IH]; intros [|c s]; simpl; try reflexivity.
  apply IH.
Qed.

Lemma get_drop (n k : nat) (s : string) :
  String.get k (drop n s) = String.get (n + k) s.
Proof.
  revert s. induction n as [|n IH]; intros [|c s]; simpl; try reflexivity.
  apply IH.
Qed.

(** Where [findNextPair] ends a pair. *)
Lemma findNextPair_endIndex (text : string) (start : Z) :
  endIndex (findNextPair text start) = 0
  \/ (Z.max 0 start < endIndex (findNextPair text start) <= len text
      /\ String.get (Z.to_nat (endIndex (findNextPair text start) - 1)) text
         = Some ","%char).
Proof.
  unfold findNextPair. set (i := Z.max 0 start).
  set (r := mkPair start 0 "" "").
  destruct (scan_endIndex (drop (Z.to_nat i) text) i false 0 r)
    as [He|[Hb Hg]]; [now left|].
  right. set (e := endIndex (scan (drop (Z.to_nat i) text) i false 0 r)) in *.
  assert (Hl : len (drop (Z.to_nat i) text) = len text - i \/
               len (drop (Z.to_nat i) text) = 0).
  { unfold len. rewrite length_drop. lia. }
  split; [lia|].
  rewrite get_drop in Hg.
  now replace (Z.to_nat i + Z.to_nat (e - 1 - i))%nat with (Z.to_nat (e - 1))
    in Hg by lia.
Qed.

(** X2: the result of [findNextPair] echoes the start index, and its
    [endIndex] is either 0 or an index after the start and within the
    text, one past a comma of the text. *)
Theorem findNextPair_bounds (text : string) (start : Z) :
  startIndex (findNextPair text start) = start
  /\ (endIndex (findNextPair text start) = 0
      \/ (Z.max 0 start < endIndex (findNextPair text start) <= len text
          /\ String.get (Z.to_nat (endIndex (findNextPair text start) - 1)) text
             = Some ","%char)).
Proof.
  split; [apply scan_startIndex | apply findNextPair_endIndex].
Qed.

(** The value phase leaves the key alone and appends to the value a part
    of the text. *)
Lemma scan_value_parts (v : string) :
  forall (i n : Z) (r : pair),
    key (scan v i true n r) = key r
    /\ exists w, value r ++ v = value (scan v i true n r) ++ w.
Proof.
  induction v as [|c v IH]; intros i n r.
  - split; [reflexivity|]. exists "". reflexivity.
  - rewrite scan_value_cons.
    destruct ((n + depthChange c =? 0) && Ascii.eqb c ",")%bool.
    + split; [reflexivity|]. now exists (String c v).
    + destruct (IH (i + 1) (n + depthChange c) (pushValue r c)) as [Hk [w Hw]].
      split; [exact Hk|]. exists w. rewrite <- Hw.
      cbn [pushValue value]. now rewrite append_assoc.
Qed.

(** X3: whatever the text and the start index, the key that [findNextPair]
    answers is made of the characters of the key class that stand before
    the first colon, every other character there being dropped, and the
    value is a beginning of the text after that colon. *)
Theorem findNextPair_key (text : string) (start : Z) :
  let rest := drop (Z.to_nat (Z.max 0 start)) text in
  key (findNextPair text start) = keyChars (beforeColon rest)
  /\ exists w, afterColon rest = value (findNextPair text start) ++ w.
Proof.
  intros rest. unfold findNextPair. fold rest. rewrite scan_key.
  set (r := mkPair start 0 ("" ++ keyChars (beforeColon rest)) "").
  destruct (scan_value_parts (afterColon rest)
              (Z.max 0 start + len (beforeColon rest) + 1) 0 r) as [Hk [w Hw]].
  split; [exact Hk|]. exists w. exact Hw.
Qed.

(** X1: when the text after the first colon is [p], a comma and [q], with
    [p] at bracket depth 0 at its end and no comma of [p] at depth 0, the
    pair that [findNextPair] answers has the key characters before the
    colon as its key and [p] as its value, commas inside brackets
    included, and ends one past that comma. *)
Theorem findNextPair_first_comma (text : string) (start : Z) (p q : string) :
  let i := Z.max 0 start in
  let rest := drop (Z.to_nat i) text in
  afterColon rest = p ++ String "," q ->
  (forall p1 p2, p = p1 ++ String "," p2 -> depth p1 <> 0) ->
  depth p = 0 ->
  findNextPair text start
  = mkPair start (i + len (beforeColon rest) + 1 + len p + 1)
           (keyChars (beforeColon rest)) p.
Proof. apply findNextPair_terminated. Qed.

Lemma findNextPair_first_comma_witness :
  findNextPair "a:1,b:{x,y},c:3," 4 = mkPair 4 12 "b" "{x,y}".
Proof.
  apply (findNextPair_first_comma "a:1,b:{x,y},c:3," 4 "{x,y}" "c:3,");
    [reflexivity | | reflexivity].
  intros p1 p2 H.
  destruct p1 as [|c1 [|c2 [|c3 [|c4 [|c5 [|c6 p1]]]]]];
    try discriminate H; injection H as <- <- _; vm_compute; discriminate.
Defined.

End TokenizerLaws.

(** ** The rounds of the two filter loops *)

Module LoopLaws.
Import JsString JsStringFacts JsNumber Json Validator ValidatorFacts Query.
Import Tokenizer TokenizerFacts TokenizerLaws AggregateBuilder Controller.
Import QueryFacts ControllerFacts FilterLoop.

Lemma classLoop_S (E : Env) (class : pair -> bool) (n fuel : nat)
  (filter : string) (i : Z) (arr : list jsval) :
  classLoop E class n (S fuel) filter i arr
  = if i <=? len filter then
      let p := findNextPair filter i in
      if closing p then Ok arr
      else
        arr' <- (if class p
                 then v <- normalize E n (VStr (value p)) ;;
                      Ok (arr ++ [VObj [(key p, v)]])%list
                 else Ok arr) ;;
        classLoop E class n fuel filter (endIndex p) arr'
    else Ok arr.
Proof. reflexivity. Qed.

(** The two loops of the source are the loop with a class. *)
Lemma preLoop_classLoop (E : Env) (this : Controller) (n fuel : nat)
  (filter : string) :
  forall (i : Z) (arr : list jsval),
    preLoop E this n fuel filter i arr
    = classLoop E (preClass this) n fuel filter i arr.
Proof.
  induction fuel as [|fuel IH]; intros i arr; [reflexivity|].
  rewrite preLoop_S, classLoop_S.
  destruct (i <=? len filter); [|reflexivity].
  cbv zeta. unfold closing, preClass, hasPostKeyword.
  rewrite preShouldAdd_spec.
  set (p := findNextPair filter i).
  destruct ((key p =? "") && (value p =? ""))%string%bool; [reflexivity|].
  destruct (negb (existsb (fun kw => includes kw (key p))
                    (postMatchKeywords this))).
  - destruct (normalize E n (VStr (value p))) as [v|e]; cbn [bind];
      [apply IH | reflexivity].
  - cbn [bind]. apply IH.
Qed.

Lemma postLoop_classLoop (E : Env) (this : Controller) (n fuel : nat)
  (filter : string) :
  forall (i : Z) (arr : list jsval),
    postLoop E this n fuel filter i arr
    = classLoop E (postClass this) n fuel filter i arr.
Proof.
  induction fuel as [|fuel IH]; intros i arr; [reflexivity|].
  rewrite postLoop_S, classLoop_S.
  destruct (i <=? len filter); [|reflexivity].
  cbv zeta. unfold closing, postClass, hasPostKeyword.
  rewrite postShouldAdd_spec.
  set (p := findNextPair filter i).
  destruct ((key p =? "") && (value p =? ""))%string%bool; [reflexivity|].
  destruct (existsb (fun kw => includes kw (key p)) (postMatchKeywords this)).
  - destruct (normalize E n (VStr (value p))) as [v|e]; cbn [bind];
      [apply IH | reflexivity].
  - cbn [bind]. apply IH.
Qed.

Section ClassLoop.
Variable E : Env.
Variable class : pair -> bool.
Variable n : nat.
Variable filter : string.

(** What a loop that returns has pushed. *)
Lemma classLoop_conditions (fuel : nat) (i : Z) (arr arr' : list jsval) :
  classLoop E class n fuel filter i arr = Ok arr' ->
  exists pairs cs,
    tokenize fuel filter i = Some pairs
    /\ arr' = (arr ++ cs)%list
    /\ Forall2 (conditionOf E n) (List.filter class pairs) cs.
Proof.
  apply (loop_conditions E (classLoop E class) class n filter);
    intros; reflexivity.
Qed.

(** When the text has pairs up to its end and [normalize] answers on the
    values of the class, the loop returns. *)
Lemma classLoop_complete :
  forall (fuel : nat) (i : Z) (arr : list jsval) (pairs : list pair)
         (cs : list jsval),
    tokenize fuel filter i = Some pairs ->
    Forall2 (conditionOf E n) (List.filter class pairs) cs ->
    classLoop E class n fuel filter i arr = Ok (arr ++ cs)%list.
Proof.
  induction fuel as [|fuel IH]; intros i arr pairs cs Ht HF;
    [discriminate Ht|].
  rewrite tokenize_S in Ht. rewrite classLoop_S.
  destruct (i <=? len filter).
  - cbv zeta in *. set (p := findNextPair filter i) in *.
    change ((key p =? "") && (value p =? ""))%string%bool
      with (closing p) in Ht.
    destruct (closing p).
    + injection Ht as <-. inversion HF. now rewrite app_nil_r.
    + destruct (tokenize fuel filter (endIndex p)) as [rest|] eqn:Hr;
        [|discriminate Ht].
      injection Ht as <-. cbn [List.filter] in HF.
      destruct (class p).
      * inversion HF as [|p' c l cs' [v [Hv Hcv]] HF']; subst.
        rewrite Hv. cbn [bind].
        rewrite (IH _ _ rest cs' Hr HF'). now rewrite <- app_assoc.
      * cbn [bind]. apply (IH _ _ rest cs Hr HF).
  - injection Ht as <-. inversion HF. now rewrite app_nil_r.
Qed.

Lemma visits_snoc (a i : Z) :
  visits filter a i ->
  i <= len filter ->
  closing (findNextPair filter i) = false ->
  visits filter a (endIndex (findNextPair filter i)).
Proof.
  intros Hv Hi Hc. induction Hv as [i|a j Ha Hca Hv IH].
  - apply visits_next; [assumption..|apply visits_here].
  - apply visits_next; [assumption..|]. now apply IH.
Qed.

(** A loop that comes to a pair without end never returns: it is back at
    index 0, from where it comes to that pair again. *)
Lemma classLoop_restarts (j : Z) :
  visits filter 0 j ->
  restarts filter j ->
  forall (fuel : nat) (i : Z) (arr r : list jsval),
    visits filter i j ->
    classLoop E class n fuel filter i arr <> Ok r.
Proof.
  intros H0 (Hle & Hc & He) fuel.
  induction fuel as [|fuel IH]; intros i arr r Hv; [discriminate|].
  rewrite classLoop_S.
  inversion Hv as [i'|i' j' Hi Hci Hv']; subst.
  - rewrite (proj2 (Z.leb_le _ _) Hle). cbv zeta. rewrite Hc, He.
    destruct (if class _ then _ else _) as [arr'|e]; cbn [bind];
      [now apply IH | discriminate].
  - rewrite (proj2 (Z.leb_le _ _) Hi). cbv zeta. rewrite Hci.
    destruct (if class _ then _ else _) as [arr'|e]; cbn [bind];
      [now apply IH | discriminate].
Qed.

(** A loop that returns does so within one round for each index of the
    text: the indices of its rounds grow. *)
Lemma classLoop_bound :
  forall (fuel : nat) (i : Z) (arr r : list jsval),
    visits filter 0 i ->
    0 <= i <= len filter ->
    classLoop E class n fuel filter i arr = Ok r ->
    forall fuel' : nat,
      len filter - i + 1 <= Z.of_nat fuel' ->
      classLoop E class n fuel' filter i arr = Ok r.
Proof.
  induction fuel as [|fuel IH]; intros i arr r Hv Hi H fuel' Hf;
    [discriminate H|].
  destruct fuel' as [|fuel']; [lia|].
  rewrite classLoop_S in *.
  rewrite (proj2 (Z.leb_le _ _) (proj2 Hi)) in *. cbv zeta in *.
  destruct (closing (findNextPair filter i)) eqn:Hc; [exact H|].
  destruct (if class _ then _ else _) as [arr'|e]; [|discriminate H].
  cbn [bind] in *.
  destruct (findNextPair_endIndex filter i) as [He|[Hb _]].
  - exfalso. rewrite He in H.
    apply (classLoop_restarts i Hv (conj (proj2 Hi) (conj Hc He))
             fuel 0 arr' r Hv H).
  - apply (IH _ arr' r); [now apply visits_snoc | lia | exact H | lia].
Qed.

End ClassLoop.

Section Compiler.
Variable E : Env.
Variable this : Controller.

Lemma preLoop_restarts (n : nat) (filter : string) (j : Z) :
  visits filter 0 j -> restarts filter j ->
  forall (fuel : nat) (arr r : list jsval),
    preLoop E this n fuel filter 0 arr <> Ok r.
Proof.
  intros Hv Hr fuel arr r. rewrite preLoop_classLoop.
  now apply (classLoop_restarts E _ n filter j Hv Hr).
Qed.

Lemma postLoop_restarts (n : nat) (filter : string) (j : Z) :
  visits filter 0 j -> restarts filter j ->
  forall (fuel : nat) (arr r : list jsval),
    postLoop E this n fuel filter 0 arr <> Ok r.
Proof.
  intros Hv Hr fuel arr r. rewrite postLoop_classLoop.
  now apply (classLoop_restarts E _ n filter j Hv Hr).
Qed.

(** What [computePreQuery] and [computePostQuery] have run when they
    return on a filter text. *)
Lemma computePreQuery_loop (fuel : nat) (search : jsval) (f : string)
  (b : AggregateBuilder) :
  computePreQuery E this fuel search (VStr f) = Ok b ->
  exists arr0 arr,
    preLoop E this fuel fuel (terminated f) 0 arr0 = Ok arr
    /\ b = [Match (matchOpt arr)].
Proof.
  unfold computePreQuery. intros H.
  destruct (if ((isString search || isObject search) && isExist E search
                && (0 <? Z.of_nat (List.length (searchFields this))))%bool
            then _ else _) as [arr0|e]; [|discriminate H].
  cbn [bind] in H.
  destruct (preLoop E this fuel fuel (terminated f) 0 arr0) as [arr|e] eqn:Hp;
    [|discriminate H].
  injection H as <-. now exists arr0, arr.
Qed.

Lemma computePostQuery_loop (fuel : nat) (f : string)
  (q : option AggregateBuilder) :
  computePostQuery E this fuel (VStr f) = Ok q ->
  exists arr,
    postLoop E this fuel fuel (terminated f) 0 [] = Ok arr
    /\ q = match arr with
           | [] => None
           | _ :: _ => Some [Match (matchOpt arr)]
           end.
Proof.
  unfold computePostQuery. intros H.
  destruct (postLoop E this fuel fuel (terminated f) 0 []) as [arr|e] eqn:Hp;
    [|discriminate H].
  cbn [bind] in H. exists arr. split; [reflexivity|].
  destruct arr; now injection H as <-.
Qed.

Lemma computePipeline_parts (fuel : nat) (search filter : jsval)
  (sort : option string) (page pageSize : option Z) (b : AggregateBuilder) :
  computePipeline E this fuel search filter sort page pageSize = Ok b ->
  exists pre post,
    computePreQuery E this fuel search filter = Ok pre
    /\ computePostQuery E this fuel filter = Ok post.
Proof.
  unfold computePipeline. intros H.
  destruct (computePreQuery E this fuel search filter) as [pre|e];
    [|discriminate H].
  cbn [bind] in H.
  destruct (computePostQuery E this fuel filter) as [post|e];
    [|discriminate H].
  now exists pre, post.
Qed.

Lemma restarts_never_returns (f : string) (j : Z) :
  visits (terminated f) 0 j ->
  restarts (terminated f) j ->
  forall (fuel : nat) (search : jsval) (sort : option string)
         (page pageSize : option Z),
    (forall b, computePreQuery E this fuel search (VStr f) <> Ok b)
    /\ (forall q, computePostQuery E this fuel (VStr f) <> Ok q)
    /\ (forall b, computePipeline E this fuel search (VStr f) sort page pageSize
                  <> Ok b).
Proof.
  intros Hv Hr fuel search sort page pageSize.
  assert (Hpre : forall b, computePreQuery E this fuel search (VStr f) <> Ok b).
  { intros b H. apply computePreQuery_loop in H as (arr0 & arr & H & _).
    now apply (preLoop_restarts fuel _ j Hv Hr) in H. }
  split; [exact Hpre|]. split.
  - intros q H. apply computePostQuery_loop in H as (arr & H & _).
    now apply (postLoop_restarts fuel _ j Hv Hr) in H.
  - intros b H. apply computePipeline_parts in H as (pre & post & H & _).
    now apply Hpre in H.
Qed.

End Compiler.

(** X4: when the loop over the filter text comes to a pair that has no end
    (its [endIndex] is 0) and is not the closing one, the next round is at
    index 0 again: neither [computePreQuery] nor [computePostQuery] nor
    [computePipeline] returns on that filter, whatever the other
    arguments and however long they run. *)
Theorem filter_restart_never_returns (E : Env) (this : Controller)
  (f : string) (j : Z) :
  visits (terminated f) 0 j ->
  restarts (terminated f) j ->
  forall (fuel : nat) (search : jsval) (sort : option string)
         (page pageSize : option Z),
    (forall b, computePreQuery E this fuel search (VStr f) <> Ok b)
    /\ (forall q, computePostQuery E this fuel (VStr f) <> Ok q)
    /\ (forall b, computePipeline E this fuel search (VStr f) sort page pageSize
                  <> Ok b).
Proof. apply restarts_never_returns. Qed.

Lemma filter_restart_never_returns_witness :
  let this := mkController true [] [] [] in
  visits (terminated "a:1,b") 0 4
  /\ restarts (terminated "a:1,b") 4
  /\ forall b,
       computePipeline specEnv this 9 VUndefined (VStr "a:1,b") None None None
       <> Ok b.
Proof.
  intros this.
  assert (Hv : visits (terminated "a:1,b") 0 4).
  { apply visits_next; [vm_compute; discriminate | reflexivity |].
    change (endIndex (findNextPair (terminated "a:1,b") 0)) with 4.
    apply visits_here. }
  assert (Hr : restarts (terminated "a:1,b") 4).
  { split; [vm_compute; discriminate|]. split; reflexivity. }
  split; [exact Hv|]. split; [exact Hr|].
  apply (filter_restart_never_returns specEnv this "a:1,b" 4 Hv Hr
           9 VUndefined None None None).
Defined.

Lemma includes_char_cons (c d : ascii) (s : string) :
  includes (String c "") (String d s)
  = (Ascii.eqb c d || includes (String c "") s)%bool.
Proof.
  cbn [includes String.prefix].
  destruct (ascii_dec c d) as [->|Hn].
  - rewrite Ascii.eqb_refl. now destruct s.
  - apply Ascii.eqb_neq in Hn. now rewrite Hn.
Qed.

Lemma no_colon (s : string) :
  includes ":" s = false -> beforeColon s = s /\ afterColon s = "".
Proof.
  induction s as [|c s IH]; intros H; [now split|].
  rewrite includes_char_cons in H. apply orb_false_iff in H as [Hc Hs].
  rewrite Ascii.eqb_sym in Hc. cbn [beforeColon afterColon]. rewrite Hc.
  destruct (IH Hs) as [-> ->]. now split.
Qed.

Lemma no_colon_comma (s : string) :
  includes ":" s = false -> includes ":" (s ++ ",") = false.
Proof.
  induction s as [|c s IH]; intros H; [reflexivity|].
  rewrite includes_char_cons in H. apply orb_false_iff in H as [Hc Hs].
  cbn [String.append]. rewrite includes_char_cons, Hc. now apply IH.
Qed.

Lemma keyChars_comma (s : string) : keyChars (s ++ ",") = keyChars s.
Proof.
  induction s as [|c s IH]; [reflexivity|].
  cbn [String.append keyChars]. now rewrite IH.
Qed.

(** The first pair of a text without a colon has no end. *)
Lemma restarts_no_colon (t : string) :
  includes ":" t = false -> keyChars t <> "" -> restarts t 0.
Proof.
  intros Hc Hk. destruct (no_colon t Hc) as [Hb Ha].
  assert (Hp : findNextPair t 0 = mkPair 0 0 (keyChars t) "").
  { unfold findNextPair. change (Z.max 0 0) with 0.
    change (drop (Z.to_nat 0) t) with t.
    now rewrite scan_key, Ha, Hb, scan_nil. }
  unfold restarts, closing. rewrite Hp. cbn [key value endIndex].
  split; [unfold len; lia|]. split; [|reflexivity].
  apply String.eqb_neq in Hk. now rewrite Hk.
Qed.

(** X5: on a filter text that has no colon and at least one character of
    the key class, as ["abc"], the first pair has no end: neither
    [computePreQuery] nor [computePostQuery] nor [computePipeline]
    returns, however long they run. *)
Theorem filter_without_colon_never_returns (E : Env) (this : Controller)
  (f : string) :
  includes ":" f = false ->
  keyChars f <> "" ->
  forall (fuel : nat) (search : jsval) (sort : option string)
         (page pageSize : option Z),
    (forall b, computePreQuery E this fuel search (VStr f) <> Ok b)
    /\ (forall q, computePostQuery E this fuel (VStr f) <> Ok q)
    /\ (forall b, computePipeline E this fuel search (VStr f) sort page pageSize
                  <> Ok b).
Proof.
  intros Hc Hk.
  apply (restarts_never_returns E this f 0); [apply visits_here|].
  apply restarts_no_colon; unfold terminated; destruct (endsWith "," f);
    try assumption.
  - now apply no_colon_comma.
  - now rewrite keyChars_comma.
Qed.

Lemma filter_without_colon_never_returns_witness :
  let this := mkController true ["name"] [] [] in
  includes ":" "abc" = false
  /\ keyChars "abc" <> ""
  /\ forall b,
       computePipeline specEnv this 9 (VStr "bob") (VStr "abc")
         (Some "name") (Some 1) (Some 10)
       <> Ok b.
Proof.
  intros this. split; [reflexivity|]. split; [discriminate|].
  apply (filter_without_colon_never_returns specEnv this "abc" eq_refl
           ltac:(discriminate) 9 (VStr "bob") (Some "name") (Some 1)
           (Some 10)).
Defined.

(** X6: a loop over a filter text that returns does so within one round
    for each index of the text: what [computePreQuery]'s loop, or
    [computePostQuery]'s, returns after some number of rounds it returns
    within [filter.length + 1] rounds. *)
Theorem filter_loop_rounds (E : Env) (this : Controller) (n fuel : nat)
  (filter : string) (arr r : list jsval) :
  (preLoop E this n fuel filter 0 arr = Ok r ->
   forall fuel' : nat,
     len filter + 1 <= Z.of_nat fuel' ->
     preLoop E this n fuel' filter 0 arr = Ok r)
  /\ (postLoop E this n fuel filter 0 arr = Ok r ->
      forall fuel' : nat,
        len filter + 1 <= Z.of_nat fuel' ->
        postLoop E this n fuel' filter 0 arr = Ok r).
Proof.
  assert (Hl : 0 <= 0 <= len filter) by (unfold len; lia).
  split; intros H fuel' Hf.
  - rewrite preLoop_classLoop in *.
    apply (classLoop_bound E _ n filter fuel 0 arr r (visits_here _ _) Hl H).
    lia.
  - rewrite postLoop_classLoop in *.
    apply (classLoop_bound E _ n filter fuel 0 arr r (visits_here _ _) Hl H).
    lia.
Qed.

Lemma filter_loop_rounds_witness :
  let this := mkController true [] ["status"] [] in
  preLoop specEnv this 3 9 "name:x,status:active," 0 []
  = Ok [VObj [("name", VStr "x")]]
  /\ preLoop specEnv this 3 23 "name:x,status:active," 0 []
     = Ok [VObj [("name", VStr "x")]].
Proof.
  intros this. split; [vm_compute; reflexivity|].
  apply (proj1 (filter_loop_rounds specEnv this 3 9 "name:x,status:active,"
                  [] [VObj [("name", VStr "x")]]));
    [vm_compute; reflexivity | vm_compute; discriminate].
Defined.

(** X7: [computePreQuery] without a search returns on a filter text
    exactly when the text has pairs up to its end and [normalize] answers
    on the value of every pair whose key has no post-keyword, and what it
    returns is the match on the conditions of those pairs, in the order of
    the text; the same holds of [computePostQuery] and the pairs whose key
    has a post-keyword, with [false] for no condition. *)
Theorem filter_queries_return_iff (E : Env) (this : Controller) (fuel : nat)
  (f : string) :
  (forall b,
     computePreQuery E this fuel VUndefined (VStr f) = Ok b
     <-> exists pairs cs,
           tokenize fuel (terminated f) 0 = Some pairs
           /\ Forall2 (conditionOf E fuel)
                (List.filter (preClass this) pairs) cs
           /\ b = [Match (matchOpt cs)])
  /\ (forall q,
        computePostQuery E this fuel (VStr f) = Ok q
        <-> exists pairs cs,
              tokenize fuel (terminated f) 0 = Some pairs
              /\ Forall2 (conditionOf E fuel)
                   (List.filter (postClass this) pairs) cs
              /\ q = match cs with
                     | [] => None
                     | _ :: _ => Some [Match (matchOpt cs)]
                     end).
Proof.
  split.
  - intros b. rewrite computePreQuery_filter. split.
    + intros H.
      destruct (preLoop E this fuel fuel (terminated f) 0 []) as [arr|e] eqn:Hp;
        [|discriminate H].
      injection H as <-.
      apply preLoop_conditions in Hp as (pairs & cs & Ht & -> & HF).
      now exists pairs, cs.
    + intros (pairs & cs & Ht & HF & ->).
      rewrite preLoop_classLoop.
      now rewrite (classLoop_complete E _ fuel _ fuel 0 [] pairs cs Ht HF).
  - intros q. unfold computePostQuery. split.
    + intros H.
      destruct (postLoop E this fuel fuel (terminated f) 0 []) as [arr|e] eqn:Hp;
        [|discriminate H].
      cbn [bind] in H.
      apply postLoop_conditions in Hp as (pairs & cs & Ht & -> & HF).
      exists pairs, cs. repeat split; try assumption.
      cbn [app] in H. destruct cs; now injection H as <-.
    + intros (pairs & cs & Ht & HF & ->).
      rewrite postLoop_classLoop.
      rewrite (classLoop_complete E _ fuel _ fuel 0 [] pairs cs Ht HF).
      cbn [bind app]. now destruct cs.
Qed.

Lemma normalize_string_guard (E : Env) (n : nat) (s : string) (v : jsval) :
  (includes "$function" s || includes "$accumulator" s)%bool = true ->
  normalize E n (VStr s) <> Ok v.
Proof.
  intros Hg. destruct n as [|n]; [discriminate|].
  rewrite normalize_S.
  change (textualForm E (VStr s)) with (Ok s : result string).
  cbn [bind]. rewrite Hg. discriminate.
Qed.

Lemma Forall2_In_l (A B : Type) (R : A -> B -> Prop) (l : list A)
  (l' : list B) (a : A) :
  Forall2 R l l' -> In a l -> exists b, R a b.
Proof.
  intros HF. induction HF as [|x y l l' HR _ IH]; intros Hin; [destruct Hin|].
  destruct Hin as [<-|Hin]; [now exists y | now apply IH].
Qed.

(** X8: the guard of [normalize] covers every value of the filter text:
    when one pair of the text, of either class, has [$function] or
    [$accumulator] in its value, [computePipeline] returns no pipeline,
    whatever the search, the sort and the page. *)
Theorem filter_guard_every_value (E : Env) (this : Controller) (fuel : nat)
  (f : string) (pairs : list pair) (p : pair) :
  tokenize fuel (terminated f) 0 = Some pairs ->
  In p pairs ->
  (includes "$function" (value p) || includes "$accumulator" (value p))%bool
  = true ->
  forall (search : jsval) (sort : option string) (page pageSize : option Z)
         (b : AggregateBuilder),
    computePipeline E this fuel search (VStr f) sort page pageSize <> Ok b.
Proof.
  intros Ht Hin Hg search sort page pageSize b H.
  apply computePipeline_parts in H as (pre & post & Hpre & Hpost).
  apply computePreQuery_loop in Hpre as (arr0 & arr1 & Hpre & _).
  apply computePostQuery_loop in Hpost as (arr2 & Hpost & _).
  apply preLoop_conditions in Hpre as (pairs1 & cs1 & Ht1 & _ & HF1).
  apply postLoop_conditions in Hpost as (pairs2 & cs2 & Ht2 & _ & HF2).
  rewrite Ht in Ht1, Ht2. injection Ht1 as <-. injection Ht2 as <-.
  assert (Hc : exists c, conditionOf E fuel p c).
  { destruct (hasPostKeyword this (key p)) eqn:Hk.
    - apply (Forall2_In_l _ _ _ _ _ p HF2). apply filter_In.
      now split.
    - apply (Forall2_In_l _ _ _ _ _ p HF1). apply filter_In.
      split; [assumption|]. unfold preClass. now rewrite Hk. }
  destruct Hc as (c & v & Hv & _).
  now apply (normalize_string_guard E fuel _ v Hg) in Hv.
Qed.

Lemma filter_guard_every_value_witness :
  let this := mkController true [] ["b"] [] in
  let p := mkPair 4 16 "b" "$function" in
  tokenize 9 (terminated "a:1,b:$function") 0 = Some [mkPair 0 4 "a" "1"; p]
  /\ forall b,
       computePipeline specEnv this 9 VUndefined (VStr "a:1,b:$function")
         None None None
       <> Ok b.
Proof.
  intros this p. split; [vm_compute; reflexivity|].
  apply (filter_guard_every_value specEnv this 9 "a:1,b:$function"
           [mkPair 0 4 "a" "1"; p] p);
    [vm_compute; reflexivity | right; left; reflexivity | reflexivity].
Defined.

End LoopLaws.

(** ** Filter texts written from pairs *)

Module WrittenFilterFacts.
Import JsString JsStringFacts JsNumber JsNumberFacts Json Validator.
Import ValidatorFacts Query Tokenizer TokenizerFacts TokenizerLaws.
Import AggregateBuilder Controller QueryFacts ControllerFacts.
Import FilterLoop LoopLaws.

Lemma drop_app_length (pre s : string) :
  drop (String.length pre) (pre ++ s) = s.
Proof. induction pre as [|c pre IH]; [reflexivity | exact IH]. Qed.

(** A key of characters of the key class is read back as it is. *)
Lemma key_colon (k x : string) :
  allChars (includesChar kKeyAllowedCharacters) k = true ->
  beforeColon (k ++ String ":" x) = k
  /\ afterColon (k ++ String ":" x) = x
  /\ keyChars k = k.
Proof.
  induction k as [|c k IH]; intros H; [now repeat split|].
  cbn [allChars] in H. apply andb_prop in H as [Hc Hk].
  destruct (IH Hk) as (Hb & Ha & Hkc).
  assert (Hn : Ascii.eqb c ":" = false).
  { destruct (Ascii.eqb_spec c ":") as [->|]; [|reflexivity].
    vm_compute in Hc. discriminate Hc. }
  cbn [String.append beforeColon afterColon keyChars].
  rewrite Hn, Hc, Hb, Ha, Hkc. now repeat split.
Qed.

Lemma closes_spec (v : string) :
  forall n : Z,
    closes n v = true ->
    n + depth v = 0
    /\ (forall p q, v = p ++ String "," q -> n + depth p <> 0).
Proof.
  induction v as [|c v IH]; intros n H.
  - cbn [closes] in H. apply Z.eqb_eq in H. split; [cbn [depth]; lia|].
    intros [|c' p] q Hq; discriminate Hq.
  - cbn [closes] in H.
    destruct ((n + depthChange c =? 0) && Ascii.eqb c ",")%bool eqn:Hb;
      [discriminate H|].
    destruct (IH _ H) as [Hd Hf]. split; [cbn [depth]; lia|].
    intros [|c' p] q Hq; cbn [String.append] in Hq;
      injection Hq as Hc Hv; subst.
    + rewrite Ascii.eqb_refl, andb_true_r in Hb.
      change (depthChange ",") with 0 in Hb. apply Z.eqb_neq in Hb.
      cbn [depth]. lia.
    + specialize (Hf p q eq_refl). cbn [depth]. lia.
Qed.

(** A written pair is read back, and ends where the next one starts. *)
Lemma findNextPair_written (pre k v q : string) :
  allChars (includesChar kKeyAllowedCharacters) k = true ->
  closes 0 v = true ->
  findNextPair (pre ++ k ++ String ":" (v ++ String "," q)) (len pre)
  = mkPair (len pre) (len pre + len k + 1 + len v + 1) k v.
Proof.
  intros Hk Hv.
  destruct (key_colon k (v ++ String "," q) Hk) as (Hb & Ha & Hkc).
  destruct (closes_spec v 0 Hv) as [Hd Hf].
  assert (Hi : Z.max 0 (len pre) = len pre) by (unfold len; lia).
  assert (Hr : drop (Z.to_nat (Z.max 0 (len pre)))
                 (pre ++ k ++ String ":" (v ++ String "," q))
               = k ++ String ":" (v ++ String "," q)).
  { rewrite Hi. unfold len. rewrite Nat2Z.id. apply drop_app_length. }
  rewrite (findNextPair_terminated _ (len pre) v q).
  - cbv zeta. rewrite Hr, Hi, Hb, Hkc. reflexivity.
  - cbv zeta. rewrite Hr. exact Ha.
  - intros p1 p2 Hp. specialize (Hf p1 p2 Hp). lia.
  - lia.
Qed.

Lemma findNextPair_end (pre : string) :
  findNextPair pre (len pre) = mkPair (len pre) 0 "" "".
Proof.
  unfold findNextPair.
  replace (drop (Z.to_nat (Z.max 0 (len pre))) pre) with "";
    [reflexivity|].
  replace (Z.to_nat (Z.max 0 (len pre))) with (String.length pre)
    by (unfold len; lia).
  rewrite <- (append_nil_r pre) at 2. now rewrite drop_app_length.
Qed.

Lemma written_assoc (pre k v ft : string) :
  pre ++ k ++ String ":" (v ++ String "," ft)
  = (pre ++ k ++ String ":" (v ++ ",")) ++ ft.
Proof.
  rewrite !append_assoc. do 2 f_equal. cbn [String.append]. f_equal.
  now rewrite append_assoc.
Qed.

Lemma written_length (pre k v : string) :
  len (pre ++ k ++ String ":" (v ++ ","))
  = len pre + len k + 1 + len v + 1.
Proof.
  rewrite !len_app. unfold len at 3. cbn [String.length].
  fold (len (v ++ ",")). rewrite Nat2Z.inj_succ. fold (len (v ++ ",")).
  rewrite len_app. change (len ",") with 1. lia.
Qed.

Lemma tokenize_written (kvs : list (string * string)) :
  forall (pre : string) (fuel : nat),
    forallb wellFormed kvs = true ->
    (List.length kvs < fuel)%nat ->
    tokenize fuel (pre ++ filterText kvs) (len pre)
    = Some (pairsAt (len pre) kvs).
Proof.
  induction kvs as [|[k v] kvs IH]; intros pre fuel Hw Hf;
    (destruct fuel as [|fuel]; [simpl in Hf; lia|]); rewrite tokenize_S.
  - cbn [filterText]. rewrite append_nil_r.
    rewrite (proj2 (Z.leb_le _ _) (Z.le_refl _)). cbv zeta.
    now rewrite findNextPair_end.
  - cbn [forallb] in Hw. apply andb_prop in Hw as [Hkv Hw].
    unfold wellFormed in Hkv. cbn [fst snd] in Hkv.
    apply andb_prop in Hkv as [Hkv Hne]. apply andb_prop in Hkv as [Hk Hv].
    apply negb_true_iff in Hne.
    cbn [filterText pairsAt]. cbv zeta.
    assert (Hle : len pre
                  <= len (pre ++ k ++ String ":" (v ++ String "," (filterText kvs))))
      by (rewrite len_app; unfold len; lia).
    rewrite (proj2 (Z.leb_le _ _) Hle).
    rewrite (findNextPair_written pre k v _ Hk Hv).
    cbn [key value endIndex]. rewrite Hne.
    rewrite written_assoc, <- written_length.
    rewrite IH; [reflexivity | exact Hw | simpl in Hf; lia].
Qed.

Lemma pairsAt_pairs (kvs : list (string * string)) :
  forall i : Z, map (fun p => (key p, value p)) (pairsAt i kvs) = kvs.
Proof.
  induction kvs as [|[k v] kvs IH]; intros i; [reflexivity|].
  cbn [pairsAt map key value]. cbv zeta. now rewrite IH.
Qed.

(** X9: a filter text written from well-formed pairs (keys of characters
    of the key class, values that end at bracket depth 0 with no comma at
    depth 0, each as the key, a colon, the value and a comma) is read
    back by feeding each [endIndex] to the next call of [findNextPair]:
    the calls answer the pairs that were written, in their order, one
    after the other in the text, and then the closing pair. *)
Theorem tokenize_filterText (kvs : list (string * string)) (fuel : nat) :
  forallb wellFormed kvs = true ->
  (List.length kvs < fuel)%nat ->
  tokenize fuel (filterText kvs) 0 = Some (pairsAt 0 kvs)
  /\ map (fun p => (key p, value p)) (pairsAt 0 kvs) = kvs.
Proof.
  intros Hw Hf. split; [|apply pairsAt_pairs].
  exact (tokenize_written kvs "" fuel Hw Hf).
Qed.

Lemma tokenize_filterText_witness :
  let kvs := [("a", "1"); ("b", "{c:2,d:3}"); ("e", "5")] in
  filterText kvs = "a:1,b:{c:2,d:3},e:5,"
  /\ tokenize 4 (filterText kvs) 0
     = Some [mkPair 0 4 "a" "1"; mkPair 4 16 "b" "{c:2,d:3}";
             mkPair 16 20 "e" "5"]
  /\ map (fun p => (key p, value p)) (pairsAt 0 kvs) = kvs.
Proof.
  intros kvs. split; [reflexivity|].
  apply (tokenize_filterText kvs 4); [reflexivity | simpl; lia].
Defined.

Lemma plainValue_spec (v : string) :
  plainValue v = true ->
  (includes "$function" v || includes "$accumulator" v)%bool = false
  /\ wrapped (VStr v) = None.
Proof.
  unfold plainValue, wrapped. intros H. apply andb_prop in H as [Hg Hw].
  apply negb_true_iff in Hg, Hw. now rewrite Hw.
Qed.

(** The conditions of written pairs with plain values. *)
Lemma conditions_written (E : Env) (n : nat) (g : string -> bool)
  (kvs : list (string * string)) :
  forall i : Z,
    forallb (fun kv => plainValue (snd kv)) kvs = true ->
    exists cs,
      Forall2 (conditionOf E (S n))
        (List.filter (fun p => g (key p)) (pairsAt i kvs)) cs
      /\ Forall2 (fun kv c =>
                    exists nv, normalize E (S n) (VStr (snd kv)) = Ok nv
                               /\ terminal nv = true
                               /\ c = VObj [(fst kv, nv)])
           (List.filter (fun kv => g (fst kv)) kvs) cs.
Proof.
  induction kvs as [|[k v] kvs IH]; intros i Hp.
  - exists []. split; constructor.
  - cbn [forallb snd] in Hp. apply andb_prop in Hp as [Hv Hp].
    destruct (plainValue_spec v Hv) as [Hg Hw].
    destruct (normalize_string_total E n v Hg Hw) as (nv & Hnv & Ht).
    destruct (IH (i + len k + 1 + len v + 1) Hp) as (cs & HF & HK).
    cbn [pairsAt List.filter key fst]. cbv zeta. cbn [key].
    destruct (g k).
    + exists (VObj [(k, nv)] :: cs). split; constructor; try assumption.
      * now exists nv.
      * now exists nv.
    + now exists cs.
Qed.

(** X10: on a filter text written from well-formed pairs with plain
    values (no guarded operator, not wrapped in braces), with or without
    its last comma, and no search, [computePipeline] returns: the match on
    the conditions of the pairs whose key has no post-keyword, each value
    normalized to a boolean, a number, a date or a string, then the stages
    of [buildAggregateBuilder], the sort, the limit and the skip, and last
    the match on the conditions of the pairs whose key has a post-keyword
    when there is one. *)
Theorem computePipeline_written_filter (E : Env) (this : Controller)
  (fuel : nat) (f : string) (kvs : list (string * string))
  (sort : option string) (page pageSize : option Z) :
  terminated f = filterText kvs ->
  forallb wellFormed kvs = true ->
  forallb (fun kv => plainValue (snd kv)) kvs = true ->
  (List.length kvs < fuel)%nat ->
  exists cs qs : list jsval,
    computePipeline E this fuel VUndefined (VStr f) sort page pageSize
    = Ok (Match (matchOpt cs)
          :: buildAggregateBuilder this
          ++ match computeSort E sort with Some s => s | None => [] end
          ++ match computeOption page pageSize with Some o => o | None => [] end
          ++ match qs with [] => [] | _ :: _ => [Match (matchOpt qs)] end)%list
    /\ Forall2 (fun kv c =>
                  exists nv, normalize E fuel (VStr (snd kv)) = Ok nv
                             /\ terminal nv = true
                             /\ c = VObj [(fst kv, nv)])
         (List.filter (fun kv => negb (hasPostKeyword this (fst kv))) kvs) cs
    /\ Forall2 (fun kv c =>
                  exists nv, normalize E fuel (VStr (snd kv)) = Ok nv
                             /\ terminal nv = true
                             /\ c = VObj [(fst kv, nv)])
         (List.filter (fun kv => hasPostKeyword this (fst kv)) kvs) qs.
Proof.
  intros Ht Hw Hp Hf. destruct fuel as [|n]; [lia|].
  pose proof (tokenize_written kvs "" (S n) Hw Hf) as Htok.
  change (tokenize (S n) (filterText kvs) 0 = Some (pairsAt 0 kvs)) in Htok.
  destruct (conditions_written E n (fun k => negb (hasPostKeyword this k))
              kvs 0 Hp) as (cs & HF1 & HK1).
  destruct (conditions_written E n (hasPostKeyword this) kvs 0 Hp)
    as (qs & HF2 & HK2).
  exists cs, qs. split; [|split; assumption].
  unfold computePipeline.
  rewrite computePreQuery_filter, Ht, preLoop_classLoop.
  rewrite (classLoop_complete E (preClass this) (S n) _ (S n) 0 [] _ cs
             Htok HF1).
  unfold computePostQuery. rewrite Ht, postLoop_classLoop.
  rewrite (classLoop_complete E (postClass this) (S n) _ (S n) 0 [] _ qs
             Htok HF2).
  cbn [bind app]. unfold concatIf, concat.
  destruct (computeSort E sort), (computeOption page pageSize), qs;
    cbn [bind]; rewrite <- ?app_assoc, ?app_nil_r; reflexivity.
Qed.

Lemma computePipeline_written_filter_witness :
  let this := mkController true [] ["status"] [] in
  let kvs := [("name", "x"); ("status", "active"); ("age", "30")] in
  exists cs qs : list jsval,
    computePipeline specEnv this 4 VUndefined
      (VStr "name:x,status:active,age:30") (Some "-age") (Some 2) (Some 10)
    = Ok (Match (matchOpt cs)
          :: buildAggregateBuilder this
          ++ match computeSort specEnv (Some "-age") with
             | Some s => s
             | None => []
             end
          ++ match computeOption (Some 2) (Some 10) with
             | Some o => o
             | None => []
             end
          ++ match qs with [] => [] | _ :: _ => [Match (matchOpt qs)] end)%list
    /\ Forall2 (fun kv c =>
                  exists nv, normalize specEnv 4 (VStr (snd kv)) = Ok nv
                             /\ terminal nv = true
                             /\ c = VObj [(fst kv, nv)])
         (List.filter (fun kv => negb (hasPostKeyword this (fst kv))) kvs) cs
    /\ Forall2 (fun kv c =>
                  exists nv, normalize specEnv 4 (VStr (snd kv)) = Ok nv
                             /\ terminal nv = true
                             /\ c = VObj [(fst kv, nv)])
         (List.filter (fun kv => hasPostKeyword this (fst kv)) kvs) qs.
Proof.
  intros this kvs.
  apply (computePipeline_written_filter specEnv this 4
           "name:x,status:active,age:30" kvs);
    [reflexivity | reflexivity | reflexivity | simpl; lia].
Defined.

End WrittenFilterFacts.

(** ** The search of the pre-match stage *)

Module SearchFacts.
Import JsString JsStringFacts JsNumber JsNumberFacts Json JsonFacts Validator.
Import ValidatorFacts Query Tokenizer AggregateBuilder Controller.
Import QueryFacts ControllerFacts Search.

Lemma stringify_regexSearch (s : string) :
  stringify (regexSearch s) = Some (regexSearchText s).
Proof.
  unfold regexSearch, regexSearchText. cbn [stringify]. f_equal.
  unfold quote, joinComma. cbn [String.concat String.append].
  repeat first [rewrite append_assoc | progress cbn [String.append]].
  reflexivity.
Qed.

(** *** Quoting and reading back *)

Lemma quoteChar_cases (c : ascii) :
  (quoteChar c = String c ""
   /\ Ascii.eqb c dquote = false /\ Ascii.eqb c backslash = false)
  \/ (exists r, quoteChar c = String backslash r
                /\ allChars (fun x => negb (Ascii.eqb x "$")) r = true).
Proof.
  destruct c as [[] [] [] [] [] [] [] []];
    first [ left; repeat split; reflexivity
          | right; eexists; split; reflexivity ].
Qed.

Lemma parseString_quoteChar (c : ascii) (r : string) :
  parseString (quoteChar c ++ r) = consChar c (parseString r).
Proof. destruct c as [[] [] [] [] [] [] [] []]; reflexivity. Qed.

(** The characters of a quoted string are read back, whatever they are. *)
Lemma parseString_quoteChars (s r : string) :
  parseString (quoteChars s ++ String dquote r) = Some (s, r).
Proof.
  induction s as [|c s IH].
  - cbn [quoteChars String.append parseString]. now rewrite Ascii.eqb_refl.
  - cbn [quoteChars]. rewrite append_assoc, parseString_quoteChar, IH.
    reflexivity.
Qed.


(** *** The guarded operators in a quoted text *)

Lemma prefix_nil (s : string) : String.prefix "" s = true.
Proof. now destruct s. Qed.

Lemma includes_skip (p' r x : string) :
  allChars (fun c => negb (Ascii.eqb c "$")) r = true ->
  includes (String "$" p') (r ++ x) = includes (String "$" p') x.
Proof.
  induction r as [|c r IH]; intros H; [reflexivity|].
  cbn [allChars] in H. apply andb_prop in H as [Hc Hr].
  apply negb_true_iff in Hc.
  cbn [String.append includes]. fold (includes (String "$" p') (r ++ x)).
  now rewrite (prefix_head "$" c p' (r ++ x) Hc), IH.
Qed.

(** A text without quote and backslash that begins a quoted text begins
    the text that was quoted. *)
Lemma prefix_quoted (p : string) :
  forall s suf : string,
    allChars (fun a => negb (Ascii.eqb a dquote)
                       && negb (Ascii.eqb a backslash))%bool p = true ->
    String.prefix p (quoteChars s ++ String dquote suf) = true ->
    String.prefix p s = true.
Proof.
  induction p as [|a p IH]; intros s suf Hp H; [apply prefix_nil|].
  cbn [allChars] in Hp. apply andb_prop in Hp as [Ha Hp].
  apply andb_prop in Ha as [Hq Hb]. apply negb_true_iff in Hq, Hb.
  destruct s as [|c s].
  - cbn [quoteChars String.append] in H. rewrite Ascii.eqb_sym in Hq.
    now rewrite (prefix_head a dquote p suf Hq) in H.
  - cbn [quoteChars] in H. rewrite append_assoc in H.
    destruct (quoteChar_cases c) as [(Hc & _ & _)|(r & Hc & _)];
      rewrite Hc in H.
    + cbn [String.append String.prefix] in H. cbn [String.prefix].
      destruct (ascii_dec a c); [|discriminate H]. now apply (IH s suf).
    + cbn [String.append] in H. rewrite Ascii.eqb_sym in Hb.
      now rewrite (prefix_head a backslash p _ Hb) in H.
Qed.

Lemma includes_quoted (p' : string) (suf : string) :
  let p := String "$" p' in
  allChars (fun a => negb (Ascii.eqb a dquote)
                     && negb (Ascii.eqb a backslash))%bool p = true ->
  includes p (String dquote suf) = false ->
  forall s : string,
    includes p s = false ->
    includes p (quoteChars s ++ String dquote suf) = false.
Proof.
  intros p Hp Hsuf s. induction s as [|c s IH]; intros H; [exact Hsuf|].
  cbn [includes] in H. fold (includes p s) in H.
  apply orb_false_iff in H as [Hpre Hs]. specialize (IH Hs).
  destruct (quoteChar_cases c) as [(Hc & _ & _)|(r & Hc & Hr)].
  - assert (Hq : quoteChars (String c s) ++ String dquote suf
                 = String c (quoteChars s ++ String dquote suf)).
    { cbn [quoteChars]. now rewrite Hc. }
    rewrite Hq. cbn [includes].
    fold (includes p (quoteChars s ++ String dquote suf)). rewrite IH.
    destruct (String.prefix p (String c (quoteChars s ++ String dquote suf)))
      eqn:Hpq; [|reflexivity].
    rewrite <- Hq in Hpq. apply (prefix_quoted p _ suf Hp) in Hpq.
    congruence.
  - cbn [quoteChars]. rewrite append_assoc, Hc. cbn [String.append includes].
    fold (includes p (r ++ quoteChars s ++ String dquote suf)).
    unfold p at 1. rewrite (prefix_head "$" backslash p' _ eq_refl).
    unfold p. now rewrite includes_skip.
Qed.

(** The JSON text of a regular-expression search holds a guarded operator
    only when the search text does. *)
Lemma regexSearchText_guard (s : string) :
  (includes "$function" s || includes "$accumulator" s)%bool = false ->
  (includes "$function" (regexSearchText s)
   || includes "$accumulator" (regexSearchText s))%bool = false.
Proof.
  intros H. apply orb_false_iff in H as [Hf Ha].
  unfold regexSearchText, quote.
  repeat first [rewrite append_assoc | progress cbn [String.append]].
  set (suf := String "," _).
  change (quoteChars "$regex") with "$regex". cbn [String.append].
  apply orb_false_iff. split.
  - change (includes "$function" (quoteChars s ++ String dquote suf) = false).
    now apply (includes_quoted "function" suf).
  - change (includes "$accumulator" (quoteChars s ++ String dquote suf) = false).
    now apply (includes_quoted "accumulator" suf).
Qed.


(** *** Reading the text back *)

Lemma parseValue_string (fuel : nat) (r str r' : string) :
  parseString r = Some (str, r') ->
  parseValue (S fuel) (String dquote r) = Some (VStr str, r').
Proof.
  intros H. cbn [parseValue].
  change (skipWs (String dquote r)) with (String dquote r). cbv iota.
  change (Ascii.eqb dquote "{") with false.
  change (Ascii.eqb dquote "[") with false.
  change (Ascii.eqb dquote dquote) with true. cbv iota.
  now rewrite H.
Qed.

Lemma parseMembers_member (fuel : nat) (r k r2 r4 : string) (v : jsval)
  (c4 : ascii) (acc : list (string * jsval)) :
  parseString r = Some (k, String ":" r2) ->
  parseValue fuel r2 = Some (v, String c4 r4) ->
  isJsonWs c4 = false ->
  parseMembers (S fuel) (String dquote r) acc
  = if Ascii.eqb c4 ","
    then parseMembers fuel r4 (defineProp acc k v)
    else if Ascii.eqb c4 "}"
    then Some (VObj (defineProp acc k v), r4)
    else None.
Proof.
  intros Hk Hv Hw. cbn [parseMembers].
  change (skipWs (String dquote r)) with (String dquote r). cbv iota.
  change (Ascii.eqb dquote dquote) with true. cbv iota. rewrite Hk.
  change (skipWs (String ":" r2)) with (String ":" r2). cbv iota.
  change (Ascii.eqb ":" ":") with true. cbv iota. rewrite Hv.
  cbn [skipWs]. now rewrite Hw.
Qed.

Lemma parse_regexSearchText (s : string) :
  parse (regexSearchText s) = Some (regexSearch s).
Proof.
  unfold parse.
  assert (Hs : regexSearchText s
               = String "{" (String dquote ("$regex" ++ String dquote
                   (String ":" (String dquote (quoteChars s ++ String dquote
                      (String "," (String dquote ("$options" ++ String dquote
                         (String ":" (String dquote ("i" ++ String dquote
                            "}")))))))))))).
  { unfold regexSearchText, quote.
    repeat first [rewrite append_assoc | progress cbn [String.append]].
    reflexivity. }
  rewrite Hs.
  set (tmp := String "{" _).
  replace (2 * String.length tmp + 2)%nat
    with (S (S (S (S (2 * String.length tmp - 2)))))
    by (unfold tmp; cbn [String.length]; lia).
  set (fuel := (2 * String.length tmp - 2)%nat). unfold tmp.
  cbn [parseValue].
  match goal with |- context [skipWs (String "{" ?r)] =>
    change (skipWs (String "{" r)) with (String "{" r)
  end.
  cbv iota. change (Ascii.eqb "{" "{") with true. cbv iota.
  match goal with |- context [skipWs (String dquote ?r)] =>
    change (skipWs (String dquote r)) with (String dquote r)
  end.
  match goal with |- context [String.prefix "}" (String dquote ?r)] =>
    rewrite (prefix_head "}" dquote "" r eq_refl)
  end.
  erewrite (parseMembers_member (S (S fuel)) _ "$regex" _ _ (VStr s) "," []);
    [ | reflexivity | apply parseValue_string, parseString_quoteChars
      | reflexivity ].
  change (Ascii.eqb "," ",") with true. cbv iota.
  erewrite (parseMembers_member (S fuel) _ "$options" _ "" (VStr "i") "}");
    [ | reflexivity | reflexivity | reflexivity ].
  reflexivity.
Qed.


(** *** The search of [computePreQuery] *)

(** [normalize] rebuilds a regular-expression search as it is: the search
    text is quoted, read back and kept as a string under [$regex]. *)
Lemma normalize_regexSearch (E : Env) (fuel : nat) (s : string) :
  EnvOk E ->
  (includes "$function" s || includes "$accumulator" s)%bool = false ->
  normalize E (S (S fuel)) (regexSearch s) = Ok (regexSearch s).
Proof.
  intros HE Hg. unfold regexSearch at 1.
  destruct (stringify_object [("$regex", VStr s); ("$options", VStr "i")])
    as [body Hb].
  pose proof (stringify_regexSearch s) as Hs. unfold regexSearch in Hs.
  assert (Ht : regexSearchText s = String "{" (body ++ "}")) by congruence.
  destruct (toLowerCase_head "{" (body ++ "}") eq_refl eq_refl) as [Htrue Hfalse].
  rewrite (normalize_object E (S fuel) _
             [("$regex", VStr s); ("$options", VStr "i")]
             (regexSearchText s) HE Hs (regexSearchText_guard s Hg)).
  - cbn [forEachEntry].
    change (("$regex" =? "dateString") || ("$regex" =? "$regex"))%string%bool
      with true.
    change (("$options" =? "dateString") || ("$options" =? "$regex"))%string%bool
      with false.
    cbv iota. unfold bind at 1.
    rewrite (normalize_plain_string E fuel "i" HE) by reflexivity.
    reflexivity.
  - now rewrite Ht.
  - now rewrite Ht.
  - rewrite Ht. unfold isNaN.
    rewrite StringToNumber_head_NaN; try reflexivity.
    now apply trim_ends.
  - reflexivity.
  - apply parse_regexSearchText.
Qed.

Lemma mapM_cons (A B : Type) (f : A -> result B) (a : A) (l : list A) :
  mapM f (a :: l) = (b <- f a ;; bs <- mapM f l ;; Ok (b :: bs)).
Proof. reflexivity. Qed.

Lemma mapM_fields (E : Env) (fuel : nat) (v nv : jsval) (fields : list string) :
  normalize E fuel v = Ok nv ->
  mapM (fun field => x <- normalize E fuel v ;; Ok (VObj [(field, x)])) fields
  = Ok (map (fun field => VObj [(field, nv)]) fields).
Proof.
  intros H. induction fields as [|f fields IH]; [reflexivity|].
  rewrite mapM_cons. rewrite H in *. cbn [bind] in *. now rewrite IH.
Qed.

(** X11: with [autoRegExpSearch], at least one search field and no
    filter, a search text that passes [isExist], neither begins with [{]
    nor ends with [}] and holds no guarded operator is used as it is:
    [computePreQuery] returns the match on one [$or] of one condition for
    each search field, in their order, each the case-insensitive [$regex]
    of the text itself, whatever characters the text holds and whether or
    not it reads as a number, a boolean or a date. *)
Theorem computePreQuery_regex_search (E : Env) (this : Controller)
  (fuel : nat) (s : string) :
  EnvOk E ->
  autoRegExpSearch this = true ->
  searchFields this <> [] ->
  isExist E (VStr s) = true ->
  startsWith "{" s = false ->
  endsWith "}" s = false ->
  (includes "$function" s || includes "$accumulator" s)%bool = false ->
  (2 <= fuel)%nat ->
  computePreQuery E this fuel (VStr s) VUndefined
  = Ok [Match (VObj [("$and",
          VArr [VObj [("$or",
                  VArr (map (fun field => VObj [(field, regexSearch s)])
                          (searchFields this)))]])])].
Proof.
  intros HE Hauto Hfields Hex Hsw Hew Hg Hfuel.
  destruct fuel as [|[|fuel]]; try lia.
  unfold computePreQuery. rewrite Hex, Hauto.
  destruct (searchFields this) as [|f fs] eqn:Hf; [contradiction|].
  change (isString (VStr s) || isObject (VStr s))%bool with true.
  change (0 <? Z.of_nat (List.length (f :: fs))) with true.
  cbn [andb]. cbv iota.
  assert (Ht : transformRegExpSearch (VStr s) = regexSearch s).
  { unfold transformRegExpSearch. now rewrite Hsw, Hew. }
  rewrite Ht.
  rewrite (mapM_fields E (S (S fuel)) _ _ (f :: fs)
             (normalize_regexSearch E fuel s HE Hg)).
  reflexivity.
Qed.

Lemma computePreQuery_regex_search_witness :
  let this := mkController true ["name"; "email"] [] [] in
  computePreQuery specEnv this 2 (VStr "42") VUndefined
  = Ok [Match (VObj [("$and",
          VArr [VObj [("$or",
                  VArr [VObj [("name", regexSearch "42")];
                        VObj [("email", regexSearch "42")]])]])])].
Proof.
  intros this.
  apply (computePreQuery_regex_search specEnv this 2 "42" specEnv_ok);
    try reflexivity; discriminate.
Defined.

End SearchFacts.

(** ** The keys of a filter text *)

Module FilterKeyFacts.
Import JsString JsStringFacts JsNumber JsNumberFacts Json Validator.
Import ValidatorFacts Query Tokenizer TokenizerFacts TokenizerLaws.
Import AggregateBuilder Controller QueryFacts ControllerFacts.
Import FilterLoop LoopLaws WrittenFilterFacts.

Lemma depth_app (a b : string) : depth (a ++ b) = depth a + depth b.
Proof.
  induction a as [|c a IH]; [reflexivity|].
  cbn [String.append depth]. rewrite IH. lia.
Qed.

(** A value that can be written does not end with a comma. *)
Lemma closes_last (v r : string) (c : ascii) :
  closes 0 v = true -> rev v = String c r -> Ascii.eqb c "," = false.
Proof.
  intros Hv Hr. destruct (closes_spec v 0 Hv) as [Hd Hf].
  destruct (Ascii.eqb_spec c ",") as [->|]; [|reflexivity].
  assert (Hvr : v = rev r ++ ",").
  { rewrite <- (rev_involutive v), Hr. apply rev_cons. }
  exfalso. apply (Hf (rev r) "" Hvr).
  rewrite Hvr, depth_app in Hd. change (depth ",") with 0 in Hd. lia.
Qed.

(** The comma that the two loops add to a one-pair text. *)
Lemma terminated_pair (k v : string) :
  closes 0 v = true ->
  terminated (k ++ String ":" v) = filterText [(k, v)].
Proof.
  intros Hv. unfold terminated, endsWith.
  assert (Hrev : rev (k ++ String ":" v) = rev v ++ String ":" (rev k)).
  { rewrite rev_app, rev_cons, append_assoc. reflexivity. }
  assert (He : String.prefix (rev ",") (rev (k ++ String ":" v)) = false).
  { rewrite Hrev. change (rev ",") with ",".
    destruct (rev v) as [|c r] eqn:Hr.
    - reflexivity.
    - cbn [String.append]. apply prefix_head. now apply (closes_last v r). }
  rewrite He. cbn [filterText]. rewrite append_assoc. reflexivity.
Qed.

(** X12: the guard of [normalize] reads the values of a filter text and
    not its keys: a one-pair filter whose key is made of characters of
    the key class and has no post-keyword, and whose value is plain, is
    compiled by [computePreQuery] to the condition of that key on the
    normalized value, whatever the key is, the names of the guarded
    operators included. *)
Theorem filter_key_not_guarded (E : Env) (this : Controller) (fuel : nat)
  (k v : string) :
  wellFormed (k, v) = true ->
  plainValue v = true ->
  hasPostKeyword this k = false ->
  (2 <= fuel)%nat ->
  exists nv,
    normalize E fuel (VStr v) = Ok nv
    /\ computePreQuery E this fuel VUndefined (VStr (k ++ String ":" v))
       = Ok [Match (VObj [("$and", VArr [VObj [(k, nv)]])])].
Proof.
  intros Hw Hp Hk Hfuel. destruct fuel as [|n]; [lia|].
  destruct (plainValue_spec v Hp) as [Hg Hwr].
  destruct (normalize_string_total E n v Hg Hwr) as (nv & Hnv & _).
  exists nv. split; [exact Hnv|].
  assert (Hkv : forallb wellFormed [(k, v)] = true)
    by (cbn [forallb]; now rewrite Hw).
  assert (Hv : closes 0 v = true).
  { unfold wellFormed in Hw. cbn [fst snd] in Hw.
    apply andb_prop in Hw as [Hw _]. now apply andb_prop in Hw as [_ Hw]. }
  assert (Htok : tokenize (S n) (filterText [(k, v)]) 0
                 = Some (pairsAt 0 [(k, v)]))
    by (apply (tokenize_written [(k, v)] "" (S n) Hkv); simpl; lia).
  rewrite computePreQuery_filter, (terminated_pair k v Hv), preLoop_classLoop.
  rewrite (classLoop_complete E (preClass this) (S n) _ (S n) 0 []
             _ [VObj [(k, nv)]] Htok); [reflexivity|].
  cbn [pairsAt List.filter]. cbv zeta. unfold preClass at 1. cbn [key].
  rewrite Hk. cbn [negb]. repeat constructor. now exists nv.
Qed.

Lemma filter_key_not_guarded_witness :
  let this := mkController true [] [] [] in
  exists nv,
    normalize specEnv 2 (VStr "1") = Ok nv
    /\ computePreQuery specEnv this 2 VUndefined (VStr "$function:1")
       = Ok [Match (VObj [("$and", VArr [VObj [("$function", nv)]])])].
Proof.
  intros this.
  apply (filter_key_not_guarded specEnv this 2 "$function" "1");
    try reflexivity.
Defined.

End FilterKeyFacts.

(** ** The sort document *)

Module SortFacts.
Import JsString JsStringFacts JsNumber JsNumberFacts Json Validator.
Import ValidatorFacts Query AggregateBuilder Controller SortTerm.

Section Props.
Variable A : Type.

Lemma hasProp_In (o : list (string * A)) (k : string) :
  hasProp o k = true <-> In k (map fst o).
Proof.
  induction o as [|[k' v'] o IH]; cbn [hasProp map fst In].
  - split; [discriminate | contradiction].
  - rewrite orb_true_iff, IH, String.eqb_eq. reflexivity.
Qed.

Lemma hasProp_not_In (o : list (string * A)) (k : string) :
  hasProp o k = false <-> ~ In k (map fst o).
Proof.
  rewrite <- hasProp_In. destruct (hasProp o k); split; congruence.
Qed.

Lemma replaceProp_keys (o : list (string * A)) (k : string) (v : A) :
  map fst (replaceProp o k v) = map fst o.
Proof.
  induction o as [|[k' v'] o IH]; [reflexivity|].
  cbn [replaceProp]. destruct (k' =? k)%string; cbn [map fst];
    [reflexivity | now rewrite IH].
Qed.

Lemma replaceProp_In (o : list (string * A)) (k : string) (v : A)
  (k' : string) (v' : A) :
  In (k', v') (replaceProp o k v) -> (k' = k /\ v' = v) \/ In (k', v') o.
Proof.
  induction o as [|[k0 v0] o IH]; [contradiction|].
  cbn [replaceProp]. destruct (k0 =? k)%string eqn:Hk.
  - apply String.eqb_eq in Hk. subst k0.
    intros [H|H]; [left; now injection H as <- <- | right; now right].
  - intros [H|H]; [right; now left|].
    destruct (IH H) as [?|?]; [now left | right; now right].
Qed.

Lemma replaceProp_set (o : list (string * A)) (k : string) (v : A) :
  hasProp o k = true -> In (k, v) (replaceProp o k v).
Proof.
  induction o as [|[k0 v0] o IH]; [discriminate|].
  cbn [hasProp replaceProp]. destruct (k0 =? k)%string eqn:Hk.
  - apply String.eqb_eq in Hk. subst k0. intros _. now left.
  - cbn [orb]. intros H. right. now apply IH.
Qed.

Lemma replaceProp_other (o : list (string * A)) (k : string) (v : A)
  (k' : string) (v' : A) :
  k' <> k -> In (k', v') o -> In (k', v') (replaceProp o k v).
Proof.
  intros Hne. induction o as [|[k0 v0] o IH]; [contradiction|].
  cbn [replaceProp]. destruct (k0 =? k)%string eqn:Hk.
  - apply String.eqb_eq in Hk. subst k0.
    intros [H|H]; [injection H as <- <-; contradiction | now right].
  - intros [H|H]; [now left | right; now apply IH].
Qed.

Lemma insertIndexProp_Add (o : list (string * A)) (i : N) (k : string)
  (v : A) :
  Add (k, v) o (insertIndexProp o i k v).
Proof.
  induction o as [|[k' v'] o IH]; cbn [insertIndexProp]; [constructor|].
  destruct (arrayIndex k') as [j|]; [|constructor].
  destruct (j <? i)%N; now constructor.
Qed.

(** What [defineProp] makes of an object: the key is set, the other
    properties stay, and no key comes twice. *)
Lemma defineProp_Add (o : list (string * A)) (k : string) (v : A) :
  hasProp o k = false -> Add (k, v) o (defineProp o k v).
Proof.
  intros H. unfold defineProp. rewrite H.
  destruct (arrayIndex k); [apply insertIndexProp_Add|].
  rewrite <- (app_nil_r o) at 1. apply Add_app.
Qed.

Lemma Add_keys (o o' : list (string * A)) (k : string) (v : A) :
  Add (k, v) o o' -> Add k (map fst o) (map fst o').
Proof. intros H. induction H; cbn [map fst]; now constructor. Qed.

Lemma defineProp_NoDup (o : list (string * A)) (k : string) (v : A) :
  NoDup (map fst o) -> NoDup (map fst (defineProp o k v)).
Proof.
  intros H. destruct (hasProp o k) eqn:Hh.
  - unfold defineProp. rewrite Hh. now rewrite replaceProp_keys.
  - apply (NoDup_Add (Add_keys _ _ _ _ (defineProp_Add o k v Hh))).
    split; [exact H | now apply hasProp_not_In].
Qed.

Lemma defineProp_In (o : list (string * A)) (k : string) (v : A)
  (k' : string) (v' : A) :
  In (k', v') (defineProp o k v) -> (k' = k /\ v' = v) \/ In (k', v') o.
Proof.
  destruct (hasProp o k) eqn:Hh.
  - unfold defineProp. rewrite Hh. apply replaceProp_In.
  - intros H. apply (Add_in (defineProp_Add o k v Hh)) in H.
    destruct H as [H|H]; [left; now injection H as <- <- | now right].
Qed.

Lemma defineProp_set (o : list (string * A)) (k : string) (v : A) :
  In (k, v) (defineProp o k v).
Proof.
  destruct (hasProp o k) eqn:Hh.
  - unfold defineProp. rewrite Hh. now apply replaceProp_set.
  - apply (Add_in (defineProp_Add o k v Hh)). now left.
Qed.

Lemma defineProp_other (o : list (string * A)) (k : string) (v : A)
  (k' : string) (v' : A) :
  k' <> k -> In (k', v') o -> In (k', v') (defineProp o k v).
Proof.
  intros Hne H. destruct (hasProp o k) eqn:Hh.
  - unfold defineProp. rewrite Hh. now apply replaceProp_other.
  - apply (Add_in (defineProp_Add o k v Hh)). now right.
Qed.

Lemma setProp_NoDup (o : list (string * A)) (k : string) (v : A) :
  NoDup (map fst o) -> NoDup (map fst (setProp o k v)).
Proof.
  intros H. unfold setProp.
  destruct (negb (hasProp o k) && (k =? "__proto__")%string)%bool;
    [exact H | now apply defineProp_NoDup].
Qed.

Lemma setProp_In (o : list (string * A)) (k : string) (v : A)
  (k' : string) (v' : A) :
  In (k', v') (setProp o k v) -> (k' = k /\ v' = v) \/ In (k', v') o.
Proof.
  unfold setProp.
  destruct (negb (hasProp o k) && (k =? "__proto__")%string)%bool;
    [now right | apply defineProp_In].
Qed.

Lemma setProp_set (o : list (string * A)) (k : string) (v : A) :
  k <> "__proto__" -> In (k, v) (setProp o k v).
Proof.
  intros Hk. unfold setProp. apply String.eqb_neq in Hk. rewrite Hk.
  rewrite andb_false_r. apply defineProp_set.
Qed.

Lemma setProp_other (o : list (string * A)) (k : string) (v : A)
  (k' : string) (v' : A) :
  k' <> k -> In (k', v') o -> In (k', v') (setProp o k v).
Proof.
  intros Hne H. unfold setProp.
  destruct (negb (hasProp o k) && (k =? "__proto__")%string)%bool;
    [exact H | now apply defineProp_other].
Qed.

End Props.

Section Sort.
Variable E : Env.

Lemma sortTerm_eq (opt : list (string * Z)) (o : string) :
  sortTerm E opt o
  = if isExist E (VStr (sortKey o)) then setProp opt (sortKey o) (sortOrder o)
    else opt.
Proof. reflexivity. Qed.

Lemma sort_invariant (all : list string) :
  forall (terms : list string) (opt : list (string * Z)),
    (forall t, In t terms -> In t all) ->
    (NoDup (map fst opt)
     /\ forall k o, In (k, o) opt ->
          isExist E (VStr k) = true
          /\ exists term, In term all /\ sortKey term = k /\ sortOrder term = o) ->
    NoDup (map fst (fold_left (sortTerm E) terms opt))
    /\ forall k o, In (k, o) (fold_left (sortTerm E) terms opt) ->
         isExist E (VStr k) = true
         /\ exists term, In term all /\ sortKey term = k /\ sortOrder term = o.
Proof.
  induction terms as [|t terms IH]; intros opt Hall Hinv; [exact Hinv|].
  cbn [fold_left]. apply IH; [intros t' Ht'; apply Hall; now right|].
  destruct Hinv as [Hnd Hin]. rewrite sortTerm_eq.
  destruct (isExist E (VStr (sortKey t))) eqn:Hex; [|now split].
  split; [now apply setProp_NoDup|].
  intros k o Hk. apply setProp_In in Hk as [[-> ->]|Hk]; [|now apply Hin].
  split; [exact Hex|]. exists t. repeat split. apply Hall. now left.
Qed.

Lemma sort_keeps (k : string) (o : Z) :
  forall (terms : list string) (opt : list (string * Z)),
    (forall t, In t terms -> isExist E (VStr (sortKey t)) = true ->
               sortKey t <> k) ->
    In (k, o) opt ->
    In (k, o) (fold_left (sortTerm E) terms opt).
Proof.
  induction terms as [|t terms IH]; intros opt Hne Hin; [exact Hin|].
  cbn [fold_left]. apply IH; [intros t' Ht'; apply Hne; now right|].
  rewrite sortTerm_eq.
  destruct (isExist E (VStr (sortKey t))) eqn:Hex; [|exact Hin].
  apply setProp_other; [|exact Hin].
  intros ->. now apply (Hne t (or_introl eq_refl) Hex).
Qed.

End Sort.

(** X13: the sort document of [computeSort] is well formed: no key comes
    twice; every key comes from a term of the sort text, with the sign
    removed and the blanks at its ends trimmed, passes [isExist], and has
    the direction of that term, -1 or 1; and a term whose key passes
    [isExist] and is not [__proto__] gives its key the direction it asks
    for, unless a later term names the same key. *)
Theorem computeSort_document (E : Env) (sort : string) :
  let opt := fold_left (sortTerm E) (split "," sort) [] in
  computeSort E (Some sort) = Some [Sort opt]
  /\ NoDup (map fst opt)
  /\ (forall k o, In (k, o) opt ->
        isExist E (VStr k) = true
        /\ (o = 1 \/ o = -1)
        /\ exists term, In term (split "," sort)
                        /\ sortKey term = k /\ sortOrder term = o)
  /\ (forall l1 term l2,
        split "," sort = (l1 ++ term :: l2)%list ->
        isExist E (VStr (sortKey term)) = true ->
        sortKey term <> "__proto__" ->
        (forall t, In t l2 -> isExist E (VStr (sortKey t)) = true ->
                   sortKey t <> sortKey term) ->
        In (sortKey term, sortOrder term) opt).
Proof.
  intros opt. split; [reflexivity|].
  destruct (sort_invariant E (split "," sort) (split "," sort) []
              (fun t H => H)) as [Hnd Hin].
  { split; [constructor | contradiction]. }
  split; [exact Hnd|]. split.
  - intros k o Hk. destruct (Hin k o Hk) as (Hex & term & Ht & Hkey & Ho).
    split; [exact Hex|]. split; [|now exists term].
    subst o. unfold sortOrder. destruct (orderKey term =? "-")%string; auto.
  - intros l1 term l2 Hs Hex Hp Hl2. unfold opt.
    rewrite Hs, fold_left_app. cbn [fold_left].
    apply sort_keeps; [exact Hl2|].
    rewrite sortTerm_eq, Hex. now apply setProp_set.
Qed.

Lemma computeSort_document_witness :
  In ("name", 1)
    (fold_left (sortTerm specEnv) (split "," "age,-name, name") []).
Proof.
  apply (proj2 (proj2 (proj2 (computeSort_document specEnv "age,-name, name")))
           ["age"; "-name"] " name" []);
    [reflexivity | reflexivity | discriminate | contradiction].
Defined.

End SortFacts.

(** ** Update queries *)

Module UpdateQueryFacts.
Import JsString JsStringFacts JsNumber Json SortFacts UpdateQuery.

Lemma includesKey_In (l : list string) (k : string) :
  includesKey l k = true <-> In k l.
Proof.
  unfold includesKey. rewrite existsb_exists. split.
  - intros (x & Hx & He). apply String.eqb_eq in He. now subst x.
  - intros H. exists k. split; [exact H | apply String.eqb_refl].
Qed.

Lemma isUpdateLoop_exists (keys : list string) :
  isUpdateLoop keys = true
  <-> exists k, In k keys /\ In k updateOperators.
Proof.
  induction keys as [|k keys IH]; cbn [isUpdateLoop].
  - split; [discriminate | intros (k & [] & _)].
  - destruct (includesKey updateOperators k) eqn:Hk.
    + split; [|reflexivity]. intros _. exists k.
      split; [now left | now apply includesKey_In].
    + rewrite IH. split.
      * intros (k' & Hin & Hop). exists k'. split; [now right | exact Hop].
      * intros (k' & [<-|Hin] & Hop).
        -- apply includesKey_In in Hop. congruence.
        -- now exists k'.
Qed.

Lemma isUpdateQuery_exists (docs : list (string * jsval)) :
  isUpdateQuery docs = true
  <-> exists k, In k (map fst docs) /\ In k updateOperators.
Proof.
  unfold isUpdateQuery. rewrite isUpdateLoop_exists. split.
  - intros (k & Hin & Hop). exists k. split; [|exact Hop].
    now apply in_rev.
  - intros (k & Hin & Hop). exists k. split; [|exact Hop].
    now apply in_rev in Hin.
Qed.

Section Lookup.
Variable A : Type.

Lemma getProp_hasProp (o : list (string * A)) (k : string) :
  hasProp o k = false <-> getProp o k = None.
Proof.
  induction o as [|[k' v'] o IH]; cbn [hasProp getProp]; [now split|].
  destruct (k' =? k)%string; cbn [orb]; [split; discriminate | exact IH].
Qed.

Lemma getProp_In (o : list (string * A)) (k : string) (v : A) :
  getProp o k = Some v -> In (k, v) o.
Proof.
  induction o as [|[k' v'] o IH]; cbn [getProp]; [discriminate|].
  destruct (k' =? k)%string eqn:Hk.
  - apply String.eqb_eq in Hk. subst k'. intros [= ->]. now left.
  - intros H. right. now apply IH.
Qed.

Lemma getProp_replaceProp_same (o : list (string * A)) (k : string) (v : A) :
  hasProp o k = true -> getProp (replaceProp o k v) k = Some v.
Proof.
  induction o as [|[k' v'] o IH]; cbn [hasProp replaceProp]; [discriminate|].
  destruct (k' =? k)%string eqn:Hk; cbn [getProp orb]; rewrite Hk;
    [reflexivity | exact IH].
Qed.

Lemma getProp_replaceProp_other (o : list (string * A)) (k k' : string)
  (v : A) :
  k' <> k -> getProp (replaceProp o k v) k' = getProp o k'.
Proof.
  intros Hne. induction o as [|[k0 v0] o IH]; [reflexivity|].
  cbn [replaceProp]. destruct (k0 =? k)%string eqn:Hk; cbn [getProp].
  - apply String.eqb_eq in Hk. subst k0.
    assert (Hk' : (k =? k')%string = false)
      by (apply String.eqb_neq; congruence).
    now rewrite Hk'.
  - now rewrite IH.
Qed.

Lemma getProp_Add (o o' : list (string * A)) (k k' : string) (v : A) :
  Add (k, v) o o' ->
  hasProp o k = false ->
  getProp o' k' = if (k =? k')%string then Some v else getProp o k'.
Proof.
  intros H. induction H as [l|[kx vx] l l' H IH]; intros Hh;
    [reflexivity|].
  cbn [hasProp] in Hh. apply orb_false_iff in Hh as [Hx Hl].
  cbn [getProp]. rewrite (IH Hl).
  destruct (k =? k')%string eqn:Hk; [|reflexivity].
  apply String.eqb_eq in Hk. subst k'. now rewrite Hx.
Qed.

Lemma getProp_defineProp (o : list (string * A)) (k k' : string) (v : A) :
  getProp (defineProp o k v) k'
  = if (k =? k')%string then Some v else getProp o k'.
Proof.
  destruct (hasProp o k) eqn:Hh.
  - unfold defineProp. rewrite Hh. destruct (k =? k')%string eqn:Hk.
    + apply String.eqb_eq in Hk. subst k'.
      now apply getProp_replaceProp_same.
    + apply getProp_replaceProp_other. apply String.eqb_neq in Hk.
      congruence.
  - now apply (getProp_Add o _ k k' v (defineProp_Add A o k v Hh)).
Qed.

Lemma getProp_setProp (o : list (string * A)) (k k' : string) (v : A) :
  k' <> "__proto__" ->
  getProp (setProp o k v) k'
  = if (k =? k')%string then Some v else getProp o k'.
Proof.
  intros Hp. unfold setProp.
  destruct (negb (hasProp o k) && (k =? "__proto__")%string)%bool eqn:Hc;
    [|apply getProp_defineProp].
  apply andb_prop in Hc as [_ Hc]. apply String.eqb_eq in Hc. subst k.
  assert (Hk : ("__proto__" =? k')%string = false)
    by (apply String.eqb_neq; congruence).
  now rewrite Hk.
Qed.

(** [[Set]] never creates the property [__proto__]. *)
Lemma getProp_setProp_proto (o : list (string * A)) (k : string) (v : A) :
  getProp o "__proto__" = None -> getProp (setProp o k v) "__proto__" = None.
Proof.
  intros H. unfold setProp.
  destruct (negb (hasProp o k) && (k =? "__proto__")%string)%bool eqn:Hc;
    [exact H|].
  rewrite getProp_defineProp.
  destruct (k =? "__proto__")%string eqn:Hk; [|exact H].
  apply getProp_hasProp in H. apply String.eqb_eq in Hk. subst k.
  now rewrite H in Hc.
Qed.

Lemma getProp_not_In (l : list (string * A)) (k : string) :
  ~ In k (map fst l) -> getProp l k = None.
Proof. intros H. now apply getProp_hasProp, hasProp_not_In. Qed.

(** The properties after a run of updates that act as [defineProp] does on
    the keys that [good] accepts: the last update of a key wins. *)
Lemma getProp_fold (upd : list (string * A) -> string -> A -> list (string * A))
  (k : string) :
  (forall o k0 v,
     getProp (upd o k0 v) k
     = if (k0 =? k)%string then Some v else getProp o k) ->
  forall (l o : list (string * A)),
    NoDup (map fst l) ->
    getProp (fold_left (fun o kv => upd o (fst kv) (snd kv)) l o) k
    = match getProp l k with
      | Some v => Some v
      | None => getProp o k
      end.
Proof.
  intros Hupd. induction l as [|[k1 v1] l IH]; intros o Hnd; [reflexivity|].
  cbn [map fst] in Hnd. apply NoDup_cons_iff in Hnd as [Hk1 Hnd].
  cbn [fold_left fst snd getProp]. rewrite (IH _ Hnd), Hupd.
  destruct (k1 =? k)%string eqn:Hk; [|reflexivity].
  apply String.eqb_eq in Hk. subst k1. now rewrite (getProp_not_In l k Hk1).
Qed.

End Lookup.

Lemma assign_NoDup (source target : list (string * jsval)) :
  NoDup (map fst target) -> NoDup (map fst (assign target source)).
Proof.
  unfold assign. revert target.
  induction source as [|[k v] source IH]; intros target H; [exact H|].
  cbn [fold_left]. apply IH. now apply setProp_NoDup.
Qed.

Lemma spread_NoDup (source target : list (string * jsval)) :
  NoDup (map fst target) -> NoDup (map fst (spread target source)).
Proof.
  unfold spread. revert target.
  induction source as [|[k v] source IH]; intros target H; [exact H|].
  cbn [fold_left]. apply IH. now apply defineProp_NoDup.
Qed.

Lemma assign_proto (source target : list (string * jsval)) :
  getProp target "__proto__" = None ->
  getProp (assign target source) "__proto__" = None.
Proof.
  unfold assign. revert target.
  induction source as [|[k v] source IH]; intros target H; [exact H|].
  cbn [fold_left]. apply IH. now apply getProp_setProp_proto.
Qed.

Lemma getProp_assign (source target : list (string * jsval)) (k : string) :
  NoDup (map fst source) ->
  k <> "__proto__" ->
  getProp (assign target source) k
  = match getProp source k with
    | Some v => Some v
    | None => getProp target k
    end.
Proof.
  intros Hnd Hk. unfold assign.
  apply (getProp_fold jsval (@setProp jsval) k); [|exact Hnd].
  intros o k0 v. now apply getProp_setProp.
Qed.

Lemma getProp_spread (source target : list (string * jsval)) (k : string) :
  NoDup (map fst source) ->
  getProp (spread target source) k
  = match getProp source k with
    | Some v => Some v
    | None => getProp target k
    end.
Proof.
  intros Hnd. unfold spread.
  apply (getProp_fold jsval (@defineProp jsval) k); [|exact Hnd].
  intros o k0 v. apply getProp_defineProp.
Qed.

Lemma getProp_spread_copy (o : list (string * jsval)) (k : string) :
  NoDup (map fst o) -> getProp (spread [] o) k = getProp o k.
Proof.
  intros H. rewrite (getProp_spread o [] k H). now destruct (getProp o k).
Qed.

Lemma mergedData_NoDup (from to : list (string * jsval)) :
  NoDup (map fst (mergedData from to)).
Proof. unfold mergedData. apply assign_NoDup, assign_NoDup. constructor. Qed.

Lemma mergedData_proto (from to : list (string * jsval)) :
  getProp (mergedData from to) "__proto__" = None.
Proof. unfold mergedData. now apply assign_proto, assign_proto. Qed.

Lemma merge_set (from to : list (string * jsval)) :
  getProp (mergeUpdateQueryData from to) "$set"
  = Some (VObj (mergedData from to)).
Proof.
  unfold mergeUpdateQueryData. cbv zeta. rewrite getProp_defineProp.
  reflexivity.
Qed.

Lemma merge_isUpdateQuery (from to : list (string * jsval)) :
  isUpdateQuery (mergeUpdateQueryData from to) = true.
Proof.
  apply isUpdateQuery_exists. exists "$set". split.
  - apply (in_map fst _ ("$set", VObj (mergedData from to))).
    apply getProp_In, merge_set.
  - unfold updateOperators. cbn [In]. tauto.
Qed.

Lemma retrieve_NoDup (docs : list (string * jsval)) :
  NoDup (map fst docs) -> NoDup (map fst (retrieveUpdateQueryData docs)).
Proof.
  intros H. unfold retrieveUpdateQueryData.
  destruct (isUpdateQuery docs); [|exact H].
  apply assign_NoDup. constructor.
Qed.

(** X14: [isUpdateQuery] answers [true] exactly when one of the keys of
    the document is one of the fifteen operator names; the order of the
    keys and the direction of the loop do not matter. *)
Theorem isUpdateQuery_iff (docs : list (string * jsval)) :
  isUpdateQuery docs = true
  <-> exists k, In k (map fst docs) /\ In k updateOperators.
Proof. apply isUpdateQuery_exists. Qed.

(** X15: what [mergeUpdateQueryData] answers is always an update query,
    its [$set] is the merged data, and [retrieveUpdateQueryData] reads
    from it the properties of that data. *)
Theorem merge_retrieve (from to : list (string * jsval)) :
  isUpdateQuery (mergeUpdateQueryData from to) = true
  /\ getProp (mergeUpdateQueryData from to) "$set"
     = Some (VObj (mergedData from to))
  /\ forall k,
       getProp (retrieveUpdateQueryData (mergeUpdateQueryData from to)) k
       = getProp (mergedData from to) k.
Proof.
  split; [apply merge_isUpdateQuery|]. split; [apply merge_set|].
  intros k. unfold retrieveUpdateQueryData.
  rewrite merge_isUpdateQuery, merge_set. cbn [ownEntries].
  destruct (String.eqb_spec k "__proto__") as [->|Hk].
  - rewrite mergedData_proto. now apply assign_proto.
  - rewrite (getProp_assign _ [] k (mergedData_NoDup from to) Hk).
    now destruct (getProp (mergedData from to) k).
Qed.

(** X16: in what [mergeUpdateQueryData] answers, for documents whose keys
    are distinct, the second document has precedence: a property of the
    merged data is that of the data of [to] when it has one and that of
    the data of [from] otherwise, the key [__proto__] apart; and an
    operator other than [$set] is that of [to] when [to] is an update
    query that has it, whole, and that of [from] otherwise, when [from]
    is an update query. *)
Theorem merge_precedence (from to : list (string * jsval)) :
  NoDup (map fst from) ->
  NoDup (map fst to) ->
  (forall k,
     k <> "__proto__" ->
     getProp (mergedData from to) k
     = match getProp (retrieveUpdateQueryData to) k with
       | Some v => Some v
       | None => getProp (retrieveUpdateQueryData from) k
       end)
  /\ (forall k,
        k <> "$set" ->
        getProp (mergeUpdateQueryData from to) k
        = match (if isUpdateQuery to then getProp to k else None) with
          | Some v => Some v
          | None => if isUpdateQuery from then getProp from k else None
          end).
Proof.
  intros Hf Ht. split; intros k Hk.
  - unfold mergedData. cbv zeta.
    rewrite (getProp_assign _ _ k (retrieve_NoDup to Ht) Hk).
    rewrite (getProp_assign _ _ k (retrieve_NoDup from Hf) Hk).
    now destruct (getProp (retrieveUpdateQueryData from) k).
  - unfold mergeUpdateQueryData. cbv zeta. rewrite getProp_defineProp.
    assert (Hs : ("$set" =? k)%string = false)
      by (apply String.eqb_neq; congruence).
    rewrite Hs. change (spread [] []) with (@nil (string * jsval)).
    destruct (isUpdateQuery from), (isUpdateQuery to).
    + rewrite getProp_spread_copy
        by (apply spread_NoDup, spread_NoDup; constructor).
      rewrite (getProp_spread to _ k Ht).
      rewrite getProp_spread_copy by (apply spread_NoDup; constructor).
      now rewrite (getProp_spread_copy from k Hf).
    + rewrite getProp_spread_copy by (apply spread_NoDup; constructor).
      now rewrite (getProp_spread_copy from k Hf).
    + rewrite getProp_spread_copy by (apply spread_NoDup; constructor).
      rewrite (getProp_spread to _ k Ht). now destruct (getProp to k).
    + reflexivity.
Qed.

Lemma merge_precedence_witness :
  let from := [("$set", VObj [("a", VStr "1"); ("b", VStr "2")]);
               ("$inc", VObj [("n", VStr "1")])] in
  let to := [("b", VStr "3")] in
  getProp (mergedData from to) "a" = Some (VStr "1")
  /\ getProp (mergedData from to) "b" = Some (VStr "3")
  /\ getProp (mergeUpdateQueryData from to) "$inc"
     = Some (VObj [("n", VStr "1")]).
Proof.
  intros from to.
  assert (Hf : NoDup (map fst from))
    by (repeat constructor; cbn [In]; intuition discriminate).
  assert (Ht : NoDup (map fst to))
    by (repeat constructor; cbn [In]; intuition discriminate).
  destruct (merge_precedence from to Hf Ht) as [Hd Ho].
  split; [|split].
  - rewrite (Hd "a") by discriminate. reflexivity.
  - rewrite (Hd "b") by discriminate. reflexivity.
  - rewrite (Ho "$inc") by discriminate. reflexivity.
Defined.

End UpdateQueryFacts.

(** ** Arrays *)

Module ArrayFacts.
Import JsString JsStringFacts JsNumber JsNumberFacts Json JsonFacts Validator.
Import ValidatorFacts Query QueryFacts.

Lemma stringify_array (items : list jsval) :
  exists body, stringify (VArr items) = Some (String "[" (body ++ "]")).
Proof. now eexists. Qed.

(** X17: an array is normalized item by item: when its JSON text holds no
    guarded operator, none of the rules for a boolean, a number or a date
    applies to the array as a whole, whatever its items, and [normalize]
    answers the array of its normalized items, in their order, or the
    first exception that an item raises. *)
Theorem normalize_array (E : Env) (fuel : nat) (items : list jsval)
  (tmp : string) :
  EnvOk E ->
  textualForm E (VArr items) = Ok tmp ->
  (includes "$function" tmp || includes "$accumulator" tmp)%bool = false ->
  normalize E (S fuel) (VArr items)
  = (xs <- mapM (normalize E fuel) items ;; Ok (VArr xs)).
Proof.
  intros HE Ht Hg. rewrite normalize_S, Ht. cbn [bind]. rewrite Hg.
  unfold textualForm in Ht.
  change (isObject (VArr items) && negb (isNull (VArr items)))%bool
    with true in Ht.
  destruct (stringify_array items) as [body Hs]. rewrite Hs in Ht.
  injection Ht as <-.
  change (wrapped (VArr items)) with (@None string).
  destruct (toLowerCase_head "[" (body ++ "]") eq_refl eq_refl) as [-> ->].
  assert (Hn : isNaN (String "[" (body ++ "]")) = true).
  { unfold isNaN. rewrite StringToNumber_head_NaN; try reflexivity.
    now apply trim_ends. }
  rewrite Hn. cbn [negb].
  rewrite (isISO8601Date_false E (String "[" (body ++ "]")) HE eq_refl).
  reflexivity.
Qed.

Lemma normalize_array_witness :
  normalize specEnv 2 (VArr [VStr "5"; VStr "true"; VStr "x"])
  = Ok (VArr [VNum (ofZ 5); VBool true; VStr "x"]).
Proof.
  rewrite (normalize_array specEnv 1 [VStr "5"; VStr "true"; VStr "x"]
             _ specEnv_ok eq_refl eq_refl).
  reflexivity.
Defined.

End ArrayFacts.

(** ** The two cases of the tokenizer *)

Module TokenizerCases.
Import JsString JsStringFacts Tokenizer TokenizerFacts TokenizerLaws.

(** Read from depth [n], a value either has no comma at depth 0 or has a
    first one. *)
Lemma first_comma (v : string) :
  forall n : Z,
    (forall p q, v = p ++ String "," q -> n + depth p <> 0)
    \/ (exists p q,
          v = p ++ String "," q
          /\ n + depth p = 0
          /\ forall p1 p2, p = p1 ++ String "," p2 -> n + depth p1 <> 0).
Proof.
  induction v as [|c v IH]; intros n.
  - left. intros [|c' p] q H; discriminate H.
  - destruct ((n =? 0) && Ascii.eqb c ",")%bool eqn:Hb.
    + apply andb_prop in Hb as [Hn Hc].
      apply Z.eqb_eq in Hn. apply Ascii.eqb_eq in Hc. subst c.
      right. exists "", v. split; [reflexivity|]. split; [cbn [depth]; lia|].
      intros [|c' p1] p2 H; discriminate H.
    + assert (Hhead : forall q, String c v = "" ++ String "," q -> n <> 0).
      { intros q H. cbn [String.append] in H. injection H as -> _.
        rewrite Ascii.eqb_refl, andb_true_r in Hb. now apply Z.eqb_neq. }
      destruct (IH (n + depthChange c)) as [Hno|(p & q & Hv & Hd & Hfirst)].
      * left. intros [|c' p] q H.
        -- specialize (Hhead q H). cbn [depth]. lia.
        -- cbn [String.append] in H. injection H as <- Hv.
           specialize (Hno p q Hv). cbn [depth]. lia.
      * right. exists (String c p), q. split; [now rewrite Hv|].
        split; [cbn [depth]; lia|].
        intros [|c' p1] p2 H.
        -- specialize (Hhead (p2 ++ String "," q)).
           cbn [depth]. rewrite Z.add_0_r. apply Hhead.
           cbn [String.append] in *. injection H as -> ->.
           now rewrite Hv.
        -- cbn [String.append] in H. injection H as <- Hp.
           specialize (Hfirst p1 p2 Hp). cbn [depth]. lia.
Qed.

(** X18: the two cases of [findNextPair], for every text and start index.
    The key is always the key-class characters before the first colon.
    Either no comma of the text after that colon stands at bracket depth
    0, and then the value is all of that text and [endIndex] is 0; or
    there is a first such comma, and then the value is the text before it
    and [endIndex] is one past it. *)
Theorem findNextPair_cases (text : string) (start : Z) :
  let i := Z.max 0 start in
  let rest := drop (Z.to_nat i) text in
  let k := keyChars (beforeColon rest) in
  let v := afterColon rest in
  (unterminated v /\ findNextPair text start = mkPair start 0 k v)
  \/ (exists p q,
        v = p ++ String "," q
        /\ depth p = 0
        /\ (forall p1 p2, p = p1 ++ String "," p2 -> depth p1 <> 0)
        /\ findNextPair text start
           = mkPair start (i + len (beforeColon rest) + 1 + len p + 1) k p).
Proof.
  intros i rest k v.
  destruct (first_comma v 0) as [Hno|(p & q & Hv & Hd & Hfirst)].
  - left. assert (Hu : unterminated v).
    { intros p q H. specialize (Hno p q H). lia. }
    split; [exact Hu|]. unfold findNextPair. fold i. fold rest.
    now rewrite scan_key_unterminated.
  - right. exists p, q. split; [exact Hv|]. split; [lia|].
    assert (Hf : forall p1 p2, p = p1 ++ String "," p2 -> depth p1 <> 0).
    { intros p1 p2 H. specialize (Hfirst p1 p2 H). lia. }
    split; [exact Hf|].
    apply (findNextPair_terminated text start p q Hv Hf). lia.
Qed.

End TokenizerCases.

(** ** Strings in braces *)

Module WrappedFacts.
Import JsString JsStringFacts JsNumber JsNumberFacts Json JsonFacts Validator.
Import ValidatorFacts Query QueryFacts.

Lemma wrapped_brace (s : string) :
  wrapped (VStr s) = Some s -> exists r, s = String "{" r.
Proof.
  unfold wrapped. intros H.
  destruct (startsWith "{" s) eqn:Hs; [|discriminate H].
  now apply startsWith_brace.
Qed.

Lemma wrapped_Some (s t : string) : wrapped (VStr s) = Some t -> t = s.
Proof.
  unfold wrapped. destruct (startsWith "{" s && endsWith "}" s)%bool;
    [now intros [= <-] | discriminate].
Qed.

(** What [normalize] does with a string in braces that passes the guard. *)
Lemma normalize_wrapped_S (E : Env) (fuel : nat) (s : string) :
  (includes "$function" s || includes "$accumulator" s)%bool = false ->
  wrapped (VStr s) = Some s ->
  normalize E (S fuel) (VStr s)
  = match parse s with
    | Some v => normalize E fuel v
    | None => Err SyntaxError
    end.
Proof.
  intros Hg Hw. rewrite normalize_S.
  change (textualForm E (VStr s)) with (Ok s : result string).
  cbn [bind]. now rewrite Hg, Hw.
Qed.

(** X19: a string wrapped in braces that passes the guard is never
    answered as it is: either it is not a JSON text and [normalize] fails
    with the syntax error of [JSON.parse], or it is the text of an object,
    [normalize] handles that object instead, and whatever it returns is an
    object, never a boolean, a number, a date or a string. *)
Theorem normalize_wrapped (E : Env) (fuel : nat) (s : string) :
  EnvOk E ->
  (includes "$function" s || includes "$accumulator" s)%bool = false ->
  wrapped (VStr s) = Some s ->
  (parse s = None /\ normalize E (S fuel) (VStr s) = Err SyntaxError)
  \/ (exists props,
        parse s = Some (VObj props)
        /\ normalize E (S fuel) (VStr s) = normalize E fuel (VObj props)
        /\ forall v, normalize E (S fuel) (VStr s) = Ok v ->
                     exists props', v = VObj props').
Proof.
  intros HE Hg Hw. rewrite (normalize_wrapped_S E fuel s Hg Hw).
  destruct (parse s) as [o|] eqn:Hp; [right | now left].
  destruct (wrapped_brace s Hw) as [r ->].
  destruct (parse_brace r o Hp) as [props ->].
  exists props. split; [reflexivity|]. split; [reflexivity|].
  intros v Hv.
  pose proof (normalize_object_nonterminal E fuel props v HE Hv) as Ht.
  destruct fuel as [|n]; [discriminate Hv|].
  rewrite normalize_S in Hv. unfold textualForm in Hv.
  change (isObject (VObj props) && negb (isNull (VObj props)))%bool
    with true in Hv.
  change (wrapped (VObj props)) with (@None string) in Hv.
  change (isArray (VObj props)) with false in Hv.
  change (isNumber (VObj props)) with false in Hv.
  change (isString (VObj props)) with false in Hv.
  rewrite (isJSON_object E HE) in Hv.
  destruct (stringify_object props) as [body Hs]. rewrite Hs in Hv.
  cbn [bind negb andb] in Hv.
  set (tmp := String "{" (body ++ "}")) in *.
  destruct (includes "$function" tmp || includes "$accumulator" tmp)%bool;
    [discriminate Hv|].
  destruct (toLowerCase_head "{" (body ++ "}") eq_refl eq_refl) as [Htr Hfa].
  fold tmp in Htr, Hfa. rewrite Htr, Hfa in Hv.
  assert (Hn : isNaN tmp = true).
  { unfold isNaN, tmp. rewrite StringToNumber_head_NaN; try reflexivity.
    now apply trim_ends. }
  rewrite Hn in Hv. cbn [negb] in Hv.
  rewrite (isISO8601Date_false E tmp HE eq_refl) in Hv.
  destruct (parse tmp) as [o|] eqn:Hp'; [|discriminate Hv].
  destruct (parse_brace _ _ Hp') as [props' ->].
  destruct (forEachEntry _ props' props') as [props''|e]; [|discriminate Hv].
  injection Hv as <-. now exists props''.
Qed.

Lemma normalize_wrapped_witness :
  (parse "{a}" = None /\ normalize specEnv 1 (VStr "{a}") = Err SyntaxError)
  \/ (exists props,
        parse "{a}" = Some (VObj props)
        /\ normalize specEnv 1 (VStr "{a}") = normalize specEnv 0 (VObj props)
        /\ forall v, normalize specEnv 1 (VStr "{a}") = Ok v ->
                     exists props', v = VObj props').
Proof.
  apply (normalize_wrapped specEnv 0 "{a}" specEnv_ok); reflexivity.
Defined.

Lemma normalize_guard (E : Env) (fuel : nat) (text : jsval) (tmp : string) :
  textualForm E text = Ok tmp ->
  (includes "$function" tmp || includes "$accumulator" tmp)%bool = true ->
  normalize E (S fuel) text = Err InvalidOperator.
Proof.
  intros Ht Hg. rewrite normalize_S, Ht. cbn [bind]. now rewrite Hg.
Qed.

(** X20: the guard is not passed by escapes: when a string in braces is
    the JSON text of a value whose own textual form holds a guarded
    operator, [normalize] fails with the invalid-operator error, whether
    or not the string holds the operator as written (the [$] may be
    written as the escape of its code unit). *)
Theorem normalize_escaped_operator (E : Env) (fuel : nat) (s tmp : string)
  (v : jsval) :
  wrapped (VStr s) = Some s ->
  parse s = Some v ->
  textualForm E v = Ok tmp ->
  (includes "$function" tmp || includes "$accumulator" tmp)%bool = true ->
  normalize E (S (S fuel)) (VStr s) = Err InvalidOperator.
Proof.
  intros Hw Hp Ht Hg.
  destruct (includes "$function" s || includes "$accumulator" s)%bool eqn:Hs.
  - now apply (normalize_guard E (S fuel) (VStr s) s).
  - rewrite (normalize_wrapped_S E (S fuel) s Hs Hw), Hp.
    now apply (normalize_guard E fuel v tmp).
Qed.

Lemma normalize_escaped_operator_witness :
  let s := "{" ++ String dquote ("a" ++ String dquote (":" ++ String dquote
             ("\u0024function" ++ String dquote "}"))) in
  (includes "$function" s || includes "$accumulator" s)%bool = false
  /\ normalize specEnv 2 (VStr s) = Err InvalidOperator.
Proof.
  intros s. split; [reflexivity|].
  apply (normalize_escaped_operator specEnv 0 s
           ("{" ++ String dquote ("a" ++ String dquote (":" ++ String dquote
              ("$function" ++ String dquote "}"))))
           (VObj [("a", VStr "$function")]));
    reflexivity.
Defined.

End WrappedFacts.
